(** * brew-up: the application scanner of [brew_scanner.py]

    A shallow embedding of the name matching, the two-pass classification
    ([get_applications_macos] / [get_applications_linux], then
    [check_brew_equivalents]) and the counts of [export_to_json] and
    [show_summary], followed by the properties the specification states
    about them.

    Modelling choices.
    - A Python [str] is a [string]; names are ASCII text, on which
      [str.lower] acts character by character (letters A-Z are moved to
      a-z, every other character is kept).
    - A Python [set] of names is the [list] of its elements in the order
      in which the interpreter iterates over it; the loops of the source
      only ever iterate over the catalogs.
    - [AppInfo] objects are mutated in place by [check_brew_equivalents];
      the list of objects is a store indexed by position, updated with
      stdpp's list insert. *)

From Stdlib Require Import String Ascii Bool Arith Lia.
From stdpp Require Import base list.

Local Open Scope string_scope.
Local Open Scope bool_scope.

(** ** Python string primitives used by the scanner *)

Module PyStr.

(** [c.lower()] on one ASCII character. *)
Definition lower_char (c : ascii) : ascii :=
  let n := nat_of_ascii c in
  if ((65 <=? n) && (n <=? 90))%nat then ascii_of_nat (n + 32) else c.

(** [s.lower()] *)
Fixpoint lower (s : string) : string :=
  match s with
  | EmptyString => EmptyString
  | String c r => String (lower_char c) (lower r)
  end.

(** [s.replace(old, new)] for a one-character [old], the only form the
    scanner uses: every occurrence of [old] becomes [new]. *)
Fixpoint replace (old : ascii) (new : string) (s : string) : string :=
  match s with
  | EmptyString => EmptyString
  | String c r =>
      if Ascii.eqb c old then new ++ replace old new r
      else String c (replace old new r)
  end.

(** [sub in s] on strings: [sub] occurs in [s] as a contiguous block. *)
Fixpoint contains (sub s : string) : bool :=
  String.prefix sub s ||
  match s with
  | EmptyString => false
  | String _ r => contains sub r
  end.

(** [s.startswith(p)] *)
Definition startswith (s p : string) : bool := String.prefix p s.

(** [s.endswith(suffix)] *)
Definition endswith (s suffix : string) : bool :=
  let n := String.length s in
  let k := String.length suffix in
  (k <=? n)%nat && (String.substring (n - k) k s =? suffix).

(** [s[:-k]] for a positive [k]: all but the last [k] characters. *)
Definition drop_last (k : nat) (s : string) : string :=
  String.substring 0 (String.length s - k) s.

(** [os.path.join(a, b)] of [posixpath]. *)
Definition path_join (a b : string) : string :=
  if startswith b "/" then b
  else if (a =? "") || endswith a "/" then a ++ b
  else a ++ "/" ++ b.

End PyStr.

Import PyStr.

(** ** The scanner *)

Module BrewScanner.

(** The dataclass [AppInfo]; the four optional fields default to [None]. *)
Record AppInfo := mkAppInfo {
  name : string;
  path : string;
  is_brew : bool;
  brew_type : option string;
  has_brew_equivalent : option bool;
  brew_equivalent : option string;
  description : option string
}.

(** The part of the [BrewScanner] object the scan reads and writes. *)
Record Scanner := mkScanner {
  brew_formulae : list string;
  brew_casks : list string;
  installed_apps : list AppInfo
}.

(** What the scanner asks of the machine: the two [brew list] calls
    ([None] when the call raises [CalledProcessError]; otherwise the names
    of the resulting set, in iteration order), [sys.platform], the home
    directory behind [os.path.expanduser], and the directories
    ([None] when [os.path.exists] is false, otherwise [os.listdir]). *)
Record Env := mkEnv {
  brew_list_formula : option (list string);
  brew_list_cask : option (list string);
  sys_platform : string;
  home : string;
  listdir : string -> option (list string)
}.

(** Truth value of an [Optional[bool]] in [if not app.has_brew_equivalent]. *)
Definition truthy (o : option bool) : bool :=
  match o with
  | Some true => true
  | _ => false
  end.

(** [__init__] *)
Definition init : Scanner := mkScanner [] [] [].

(** [get_brew_packages] *)
Definition get_brew_packages (self : Scanner) (env : Env) : bool * Scanner :=
  match brew_list_formula env with
  | None => (false, self)
  | Some formulae =>
      let casks :=
        match brew_list_cask env with
        | Some casks => casks
        | None => []
        end in
      (true, mkScanner formulae casks (installed_apps self))
  end.

(** The generator under [any(...)] in [get_applications_macos]. *)
Definition cask_owns (app_name cask : string) : bool :=
  (lower cask =? app_name) ||
  (replace "-" "" (lower cask) =? replace "-" "" app_name) ||
  (replace "-" "" (lower cask) =? replace " " "" app_name).

(** One [item] of [os.listdir(app_dir)] on macOS. *)
Definition macos_item (self : Scanner) (app_dir item : string) : list AppInfo :=
  if endswith item ".app" then
    let app_name := lower (drop_last 4 item) in
    let full_path := path_join app_dir item in
    let is_brew_cask := existsb (cask_owns app_name) (brew_casks self) in
    [mkAppInfo (drop_last 4 item) full_path is_brew_cask
       (if is_brew_cask then Some "cask" else None) None None None]
  else [].

(** One [item] of [os.listdir(desktop_dir)] on Linux. *)
Definition linux_item (self : Scanner) (desktop_dir item : string) : list AppInfo :=
  if endswith item ".desktop" then
    let app_name := drop_last 8 item in
    let full_path := path_join desktop_dir item in
    let is_brew_formula :=
      existsb (String.eqb (lower app_name)) (map lower (brew_formulae self)) in
    [mkAppInfo app_name full_path is_brew_formula
       (if is_brew_formula then Some "formula" else None) None None None]
  else [].

(** The two nested [for] loops shared by both platforms: every existing
    directory, every item, appended in that order. *)
Definition scan_dirs (per_item : string -> string -> list AppInfo)
    (env : Env) (dirs : list string) : list AppInfo :=
  flat_map (fun d =>
    match listdir env d with
    | Some items => flat_map (per_item d) items
    | None => []
    end) dirs.

(** The local [app_dirs]; [os.path.expanduser] puts the home directory in
    place of the tilde. *)
Definition app_dirs (env : Env) : list string :=
  ["/Applications"; "/System/Applications"; home env ++ "/Applications"].

(** The local [desktop_dirs]. *)
Definition desktop_dirs (env : Env) : list string :=
  ["/usr/share/applications"; home env ++ "/.local/share/applications"].

(** [get_applications_macos] *)
Definition get_applications_macos (self : Scanner) (env : Env) : list AppInfo :=
  scan_dirs (macos_item self) env (app_dirs env).

(** [get_applications_linux] *)
Definition get_applications_linux (self : Scanner) (env : Env) : list AppInfo :=
  scan_dirs (linux_item self) env (desktop_dirs env).

(** The key [app.name.lower().replace(' ', '-')]. *)
Definition app_key (raw : string) : string := replace " " "-" (lower raw).

(** The condition of the [if] inside both search loops. *)
Definition equiv_test (app_name_lower entry : string) : bool :=
  (lower entry =? app_name_lower) ||
  (replace "-" "" (lower entry) =? replace "-" "" app_name_lower) ||
  contains app_name_lower (lower entry) ||
  contains (lower entry) app_name_lower.

Definition set_equivalent (app : AppInfo) (entry : string) : AppInfo :=
  mkAppInfo (name app) (path app) (is_brew app) (brew_type app)
    (Some true) (Some entry) (description app).

Definition set_no_equivalent (app : AppInfo) : AppInfo :=
  mkAppInfo (name app) (path app) (is_brew app) (brew_type app)
    (Some false) (brew_equivalent app) (description app).

(** [for entry in catalog: if ...: app.has_brew_equivalent = True;
    app.brew_equivalent = entry; break] *)
Fixpoint search_loop (app_name_lower : string) (catalog : list string)
    (app : AppInfo) : AppInfo :=
  match catalog with
  | [] => app
  | entry :: rest =>
      if equiv_test app_name_lower entry then set_equivalent app entry
      else search_loop app_name_lower rest app
  end.

(** The body of [for app in apps] in [check_brew_equivalents]. *)
Definition check_app (self : Scanner) (app : AppInfo) : AppInfo :=
  if negb (is_brew app) then
    let app_name_lower := app_key (name app) in
    let app1 := search_loop app_name_lower (brew_casks self) app in
    let app2 :=
      if negb (truthy (has_brew_equivalent app1))
      then search_loop app_name_lower (brew_formulae self) app1
      else app1 in
    if negb (truthy (has_brew_equivalent app2))
    then set_no_equivalent app2
    else app2
  else app.

(** [check_brew_equivalents]: the objects of [apps] are visited in order
    and each is updated in place. *)
Fixpoint check_loop (self : Scanner) (positions : list nat)
    (store : list AppInfo) : list AppInfo :=
  match positions with
  | [] => store
  | i :: rest => check_loop self rest (alter (check_app self) i store)
  end.

Definition check_brew_equivalents (self : Scanner) (apps : list AppInfo)
    : list AppInfo :=
  check_loop self (seq 0 (length apps)) apps.

(** [run_scan]: the returned flag and the scanner afterwards. *)
Definition run_scan (self : Scanner) (env : Env) : bool * Scanner :=
  match get_brew_packages self env with
  | (false, self1) => (false, self1)
  | (true, self1) =>
      if sys_platform env =? "darwin" then
        let apps := get_applications_macos self1 env in
        (true, mkScanner (brew_formulae self1) (brew_casks self1)
                 (check_brew_equivalents self1 apps))
      else if startswith (sys_platform env) "linux" then
        let apps := get_applications_linux self1 env in
        (true, mkScanner (brew_formulae self1) (brew_casks self1)
                 (check_brew_equivalents self1 apps))
      else (false, self1)
  end.

(** The four numbers [show_summary] prints. *)
Record Summary := mkSummary {
  total_applications : nat;
  brew_managed_count : nat;
  non_brew_count : nat;
  has_equivalent_count : nat
}.

Definition show_summary (self : Scanner) : Summary :=
  let brew_apps := filter (fun app => is_brew app = true) (installed_apps self) in
  let non_brew_apps := filter (fun app => is_brew app = false) (installed_apps self) in
  let has_equivalent :=
    filter (fun app => truthy (has_brew_equivalent app) = true) non_brew_apps in
  mkSummary (length (installed_apps self)) (length brew_apps)
    (length non_brew_apps) (length has_equivalent).

(** The values [json.dump] receives. *)
#[local] Set Warnings "-register-all".
Inductive json :=
  | JNull
  | JBool (b : bool)
  | JInt (n : nat)
  | JStr (s : string)
  | JList (l : list json)
  | JDict (items : list (string * json)).

Definition json_opt {A} (f : A -> json) (o : option A) : json :=
  match o with
  | Some a => f a
  | None => JNull
  end.

(** [d[key]] on a dict. *)
Fixpoint dict_get (key : string) (items : list (string * json)) : option json :=
  match items with
  | [] => None
  | (k, v) :: rest => if k =? key then Some v else dict_get key rest
  end.

Definition get (key : string) (d : json) : option json :=
  match d with
  | JDict items => dict_get key items
  | _ => None
  end.

(** [list(d.keys())] *)
Definition keys (d : json) : list string :=
  match d with
  | JDict items => map fst items
  | _ => []
  end.

(** The dictionary appended to [apps_data] for one record. *)
Definition app_dict (app : AppInfo) : json :=
  JDict [("name", JStr (name app));
         ("path", JStr (path app));
         ("is_brew", JBool (is_brew app));
         ("brew_type", json_opt JStr (brew_type app));
         ("has_brew_equivalent", json_opt JBool (has_brew_equivalent app));
         ("brew_equivalent", json_opt JStr (brew_equivalent app))].

(** [export_data], given the string [time.strftime] returns. *)
Definition export_data (self : Scanner) (timestamp : string) : json :=
  let apps_data := map app_dict (installed_apps self) in
  JDict [("scan_timestamp", JStr timestamp);
         ("total_apps", JInt (length (installed_apps self)));
         ("brew_managed",
          JInt (length (filter (fun app => is_brew app = true) (installed_apps self))));
         ("has_brew_equivalent",
          JInt (length (filter
                  (fun app => negb (is_brew app) && truthy (has_brew_equivalent app) = true)
                  (installed_apps self))));
         ("applications", JList apps_data)].

(** [export_to_json]: nothing is exported before a scan has found
    applications. *)
Definition export_to_json (self : Scanner) (timestamp : string) : option json :=
  match installed_apps self with
  | [] => None
  | _ => Some (export_data self timestamp)
  end.

End BrewScanner.

Import BrewScanner.

(** ** The specification's matching rules, in its own words *)

Module Spec.

(** "substring containment of [sub] inside [s]" *)
Definition substring_of (sub s : string) : Prop :=
  exists before after, s = before ++ sub ++ after.

(** The four equivalence tests of Stage 2 between the app's hyphenated
    key and a catalog name: exact key equality; hyphen-stripped equality on
    both sides; the app key inside the catalog name; the catalog name
    inside the app key. Catalog names are compared in lowercase. *)
Definition equiv_match (key entry : string) : Prop :=
  lower entry = key \/
  replace "-" "" (lower entry) = replace "-" "" key \/
  substring_of key (lower entry) \/
  substring_of (lower entry) key.

(** The three equality tests of Stage 1 between the app's name and a
    catalog name: equal lowercase names; equal after removing hyphens from
    both; equal after removing hyphens from the catalog name and spaces
    from the app name. *)
Definition owner_match (app_name entry : string) : Prop :=
  lower entry = lower app_name \/
  replace "-" "" (lower entry) = replace "-" "" (lower app_name) \/
  replace "-" "" (lower entry) = replace " " "" (lower app_name).

(** [x] is the first element of [l], in iteration order, that satisfies [P]. *)
Definition first_match (P : string -> Prop) (l : list string) (x : string) : Prop :=
  exists before after,
    l = (before ++ x :: after)%list /\ P x /\ forall y, In y before -> ~ P y.

(** The catalog and the category of a record's origin: bundles found on
    macOS are cask-like, desktop entries found on Linux are formula-like. *)
Definition origin_catalog (env : Env) (s : Scanner) : list string :=
  if sys_platform env =? "darwin" then brew_casks s else brew_formulae s.

Definition origin_category (env : Env) : string :=
  if sys_platform env =? "darwin" then "cask" else "formula".

(** Stage 1 as the specification words it: a record whose name passes one
    of the three tests against an entry of its origin's catalog is owned,
    with that category, and carries no equivalent. *)
Definition stage1_three_tests (self : Scanner) (env : Env) : Prop :=
  forall s' r,
    run_scan self env = (true, s') ->
    In r (installed_apps s') ->
    (exists e, In e (origin_catalog env s') /\ owner_match (name r) e) ->
    is_brew r = true /\
    brew_type r = Some (origin_category env) /\
    has_brew_equivalent r = None /\
    brew_equivalent r = None.

(** The raw entries the discovery pass enumerates: every item of every
    existing directory, in order, paired with its directory. *)
Definition raw_entries (env : Env) (dirs : list string) : list (string * string) :=
  flat_map (fun d =>
    match listdir env d with
    | Some items => map (pair d) items
    | None => []
    end) dirs.

(** The handling of malformed raw entries as the specification words it:
    an entry without a name or without a path is excluded from
    classification, so no classified record lacks either. *)
Definition malformed_entries_excluded (self : Scanner) (env : Env) : Prop :=
  forall s' r,
    run_scan self env = (true, s') ->
    In r (installed_apps s') ->
    name r <> "" /\ path r <> "".

End Spec.

(** ** Records as the discovery pass creates them *)

(** Neither equivalence field has been written yet. *)
Definition fresh (a : AppInfo) : Prop :=
  has_brew_equivalent a = None /\ brew_equivalent a = None.

(** A record appended by [get_applications_macos]. *)
Definition created_macos (self : Scanner) (a : AppInfo) : Prop :=
  fresh a /\
  is_brew a = existsb (cask_owns (lower (name a))) (brew_casks self) /\
  brew_type a = (if is_brew a then Some "cask" else None).

(** A record appended by [get_applications_linux]. *)
Definition created_linux (self : Scanner) (a : AppInfo) : Prop :=
  fresh a /\
  is_brew a = existsb (String.eqb (lower (name a))) (map lower (brew_formulae self)) /\
  brew_type a = (if is_brew a then Some "formula" else None).

(** What identifies a record: its name and its path. *)
Definition ident (r : AppInfo) : string * string := (name r, path r).

(** The name and the path both platforms give to the raw entry
    [(directory, item)], [k] being the length of the extension. *)
Definition of_entry (k : nat) (e : string * string) : string * string :=
  (drop_last k (snd e), path_join (fst e) (snd e)).

(** ** The arrow-key menu and the browser of [brew_scanner.py] *)

From Stdlib Require Import ZArith.

Module Keyboard.

(** An event of the [keyboard] library, as far as [display_menu] reads it. *)
Record KeyboardEvent := mkEvent {
  event_type : string;
  name : string
}.

(** [keyboard.KEY_DOWN] *)
Definition KEY_DOWN : string := "down".

End Keyboard.

Module Interactive.

Import Keyboard.

(** The entries of [self.emojis] the menus are built from. *)
Record Emojis := mkEmojis {
  brew : string;
  app : string;
  search : string;
  check : string;
  cross : string;
  warning : string;
  info : string;
  back : string;
  gear : string
}.

(** How a call of [display_menu] ends on the events still to come: with
    the value returned, [self.current_selection] and the events not yet
    read; blocked in [keyboard.read_event] once the events are used up; or
    with the exception of [% len(options)] on an empty menu. *)
Inductive MenuResult :=
  | Chosen (choice : Z) (current_selection : Z) (events_left : list KeyboardEvent)
  | AwaitingKey (current_selection : Z)
  | MenuRaised (exc : string).

(** [display_menu]; Python's [%] with a positive modulus is [Z.modulo]. *)
Fixpoint display_menu (options : list string) (events : list KeyboardEvent)
    (current_selection : Z) : MenuResult :=
  match events with
  | [] => AwaitingKey current_selection
  | key :: rest =>
      if event_type key =? KEY_DOWN then
        if Keyboard.name key =? "up" then
          match options with
          | [] => MenuRaised "ZeroDivisionError"
          | _ => display_menu options rest
                   ((current_selection - 1) mod Z.of_nat (length options))%Z
          end
        else if Keyboard.name key =? "down" then
          match options with
          | [] => MenuRaised "ZeroDivisionError"
          | _ => display_menu options rest
                   ((current_selection + 1) mod Z.of_nat (length options))%Z
          end
        else if Keyboard.name key =? "enter" then
          Chosen current_selection current_selection rest
        else if Keyboard.name key =? "esc" then
          Chosen (-1) current_selection rest
        else display_menu options rest current_selection
      else display_menu options rest current_selection
  end.

(** The entry of [app_options] for one record. *)
Definition app_option (emojis : Emojis) (app : AppInfo) : string :=
  let status :=
    if is_brew app then " " ++ brew emojis
    else if truthy (has_brew_equivalent app) then " " ++ check emojis
    else " " ++ cross emojis in
  BrewScanner.name app ++ status.

(** How a call of [browse_applications] ends. [shown] lists the records
    handed to [display_app_details], in order. *)
Inductive BrowseResult :=
  | NoScanData
  | NoApplications
  | Exported (data : option json)
  | Left (shown : list AppInfo) (events_left : list KeyboardEvent)
  | Awaiting (shown : list AppInfo)
  | Raised (exc : string)
  | OutOfFuel.

(** The [while True] loop of [browse_applications]; each turn calls
    [display_menu], and [display_app_details] reads one more event. *)
Fixpoint browse_loop (fuel : nat) (apps : list AppInfo) (app_options : list string)
    (events : list KeyboardEvent) (current_selection : Z) (shown : list AppInfo)
    : BrowseResult :=
  match fuel with
  | O => OutOfFuel
  | S fuel' =>
      match display_menu app_options events current_selection with
      | MenuRaised exc => Raised exc
      | AwaitingKey _ => Awaiting shown
      | Chosen choice selection rest =>
          if ((choice =? -1) || (choice =? Z.of_nat (length app_options) - 1))%Z
          then Left shown rest
          else if ((0 <=? choice) && (choice <? Z.of_nat (length apps)))%Z then
            match apps !! Z.to_nat choice with
            | None => Raised "IndexError"
            | Some app =>
                match rest with
                | [] => Awaiting (shown ++ [app])%list
                | _ :: rest' =>
                    browse_loop fuel' apps app_options rest' selection
                      (shown ++ [app])%list
                end
            end
          else browse_loop fuel' apps app_options rest selection shown
      end
  end.

(** The list [apps] a filter selects; [None] for [filter_type] 6 and for
    the values that bind no [apps]. *)
Definition filtered (self : Scanner) (filter_type : Z) : option (list AppInfo) :=
  if (filter_type =? 2)%Z then Some (installed_apps self)
  else if (filter_type =? 3)%Z then
    Some (filter (fun app => is_brew app = true) (installed_apps self))
  else if (filter_type =? 4)%Z then
    Some (filter (fun app => is_brew app = false) (installed_apps self))
  else if (filter_type =? 5)%Z then
    Some (filter
            (fun app => negb (is_brew app) && truthy (has_brew_equivalent app) = true)
            (installed_apps self))
  else None.

(** [browse_applications], given the string [time.strftime] returns if
    it comes to exporting. *)
Definition browse_applications (self : Scanner) (emojis : Emojis) (filter_type : Z)
    (timestamp : string) (events : list KeyboardEvent) : BrowseResult :=
  match installed_apps self with
  | [] => NoScanData
  | _ =>
      match filtered self filter_type with
      | None =>
          if (filter_type =? 6)%Z then Exported (export_to_json self timestamp)
          else Raised "UnboundLocalError"
      | Some apps =>
          match apps with
          | [] => NoApplications
          | _ =>
              let app_options :=
                (map (app_option emojis) apps ++
                 [(back emojis ++ " Back to Main Menu")%string])%list in
              browse_loop (S (length events)) apps app_options events 0 []
          end
      end
  end.

(** What [main_menu] did, in order: a scan and its flag, the summary, the
    warning that there is no scan data, a call of [browse_applications]
    and how it ended. *)
Inductive Action :=
  | RanScan (ok : bool)
  | ShowedSummary (summary : Summary)
  | WarnedNoData
  | Browsed (filter_type : Z) (result : BrowseResult).

(** How [main_menu] ends: by the exit entry or escape, blocked on a key,
    or with an exception that reaches [main]. *)
Inductive MainResult :=
  | Exited (trace : list Action) (self : Scanner) (events_left : list KeyboardEvent)
  | MainAwaiting (trace : list Action) (self : Scanner)
  | MainRaised (exc : string)
  | MainOutOfFuel.

(** The eight entries of the main menu. *)
Definition main_options (emojis : Emojis) : list string :=
  [search emojis ++ " Run Application Scan";
   info emojis ++ " View Scan Summary";
   app emojis ++ " Browse All Applications";
   brew emojis ++ " View Brew-Managed Apps";
   warning emojis ++ " View Non-Brew Apps";
   check emojis ++ " View Apps with Brew Equivalents";
   gear emojis ++ " Export Results to JSON";
   back emojis ++ " Exit"].

(** The [while True] loop of [main_menu]. [machine] and [clock] give the
    machine a scan finds and the string [time.strftime] returns, after
    each number of actions already done. *)
Fixpoint main_loop (fuel : nat) (machine : nat -> Env) (clock : nat -> string)
    (emojis : Emojis) (self : Scanner) (events : list KeyboardEvent)
    (trace : list Action) : MainResult :=
  match fuel with
  | O => MainOutOfFuel
  | S fuel' =>
      match display_menu (main_options emojis) events 0 with
      | MenuRaised exc => MainRaised exc
      | AwaitingKey _ => MainAwaiting trace self
      | Chosen choice _ rest =>
          if ((choice =? -1) || (choice =? 7))%Z then Exited trace self rest
          else if (choice =? 0)%Z then
            let (ok, self') := run_scan self (machine (length trace)) in
            main_loop fuel' machine clock emojis self' rest
              (trace ++ [RanScan ok])%list
          else if (choice =? 1)%Z then
            match installed_apps self with
            | [] =>
                main_loop fuel' machine clock emojis self rest
                  (trace ++ [WarnedNoData])%list
            | _ =>
                match rest with
                | [] =>
                    MainAwaiting (trace ++ [ShowedSummary (show_summary self)])%list self
                | _ :: rest' =>
                    main_loop fuel' machine clock emojis self rest'
                      (trace ++ [ShowedSummary (show_summary self)])%list
                end
            end
          else if ((2 <=? choice) && (choice <=? 6))%Z then
            match browse_applications self emojis choice (clock (length trace)) rest with
            | Left shown rest' =>
                main_loop fuel' machine clock emojis self rest'
                  (trace ++ [Browsed choice (Left shown rest')])%list
            | Awaiting shown =>
                MainAwaiting (trace ++ [Browsed choice (Awaiting shown)])%list self
            | Raised exc => MainRaised exc
            | OutOfFuel => MainOutOfFuel
            | result =>
                main_loop fuel' machine clock emojis self rest
                  (trace ++ [Browsed choice result])%list
            end
          else main_loop fuel' machine clock emojis self rest trace
      end
  end.

(** [main_menu] *)
Definition main_menu (machine : nat -> Env) (clock : nat -> string)
    (emojis : Emojis) (self : Scanner) (events : list KeyboardEvent) : MainResult :=
  main_loop (S (length events)) machine clock emojis self events [].

(** The same loop on a machine where a scan can also end with an
    exception that [run_scan] does not catch and [main_menu] does not
    handle: [FileNotFoundError] of [subprocess.run] when there is no
    [brew], [OSError] of [os.listdir] on a directory that cannot be read.
    [machine] then gives the name of the exception instead of what the
    scan finds. *)
Fixpoint main_loop_raising (fuel : nat) (machine : nat -> Env + string)
    (clock : nat -> string) (emojis : Emojis) (self : Scanner)
    (events : list KeyboardEvent) (trace : list Action) : MainResult :=
  match fuel with
  | O => MainOutOfFuel
  | S fuel' =>
      match display_menu (main_options emojis) events 0 with
      | MenuRaised exc => MainRaised exc
      | AwaitingKey _ => MainAwaiting trace self
      | Chosen choice _ rest =>
          if ((choice =? -1) || (choice =? 7))%Z then Exited trace self rest
          else if (choice =? 0)%Z then
            match machine (length trace) with
            | inr exc => MainRaised exc
            | inl env =>
                let (ok, self') := run_scan self env in
                main_loop_raising fuel' machine clock emojis self' rest
                  (trace ++ [RanScan ok])%list
            end
          else if (choice =? 1)%Z then
            match installed_apps self with
            | [] =>
                main_loop_raising fuel' machine clock emojis self rest
                  (trace ++ [WarnedNoData])%list
            | _ =>
                match rest with
                | [] =>
                    MainAwaiting (trace ++ [ShowedSummary (show_summary self)])%list self
                | _ :: rest' =>
                    main_loop_raising fuel' machine clock emojis self rest'
                      (trace ++ [ShowedSummary (show_summary self)])%list
                end
            end
          else if ((2 <=? choice) && (choice <=? 6))%Z then
            match browse_applications self emojis choice (clock (length trace)) rest with
            | Left shown rest' =>
                main_loop_raising fuel' machine clock emojis self rest'
                  (trace ++ [Browsed choice (Left shown rest')])%list
            | Awaiting shown =>
                MainAwaiting (trace ++ [Browsed choice (Awaiting shown)])%list self
            | Raised exc => MainRaised exc
            | OutOfFuel => MainOutOfFuel
            | result =>
                main_loop_raising fuel' machine clock emojis self rest
                  (trace ++ [Browsed choice result])%list
            end
          else main_loop_raising fuel' machine clock emojis self rest trace
      end
  end.

Definition main_menu_raising (machine : nat -> Env + string) (clock : nat -> string)
    (emojis : Emojis) (self : Scanner) (events : list KeyboardEvent) : MainResult :=
  main_loop_raising (S (length events)) machine clock emojis self events [].

End Interactive.

(** ** Reading the output of [brew list] *)

Module BrewOutput.

(** [c.isspace()] on an ASCII character: tab to carriage return, the four
    separators 28 to 31, and the space. *)
Definition isspace (c : ascii) : bool :=
  let n := nat_of_ascii c in
  ((9 <=? n) && (n <=? 13) || (28 <=? n) && (n <=? 31) || (n =? 32))%nat.

(** [s.lstrip()] *)
Fixpoint lstrip (s : string) : string :=
  match s with
  | EmptyString => EmptyString
  | String c r => if isspace c then lstrip r else s
  end.

(** [s.rstrip()] *)
Fixpoint rstrip (s : string) : string :=
  match s with
  | EmptyString => EmptyString
  | String c r =>
      match rstrip r with
      | EmptyString => if isspace c then EmptyString else String c EmptyString
      | r' => String c r'
      end
  end.

(** [s.strip()] *)
Definition strip (s : string) : string := rstrip (lstrip s).

(** [s.split(sep)] for a one-character separator. *)
Fixpoint split (sep : ascii) (s : string) : list string :=
  match s with
  | EmptyString => [EmptyString]
  | String c r =>
      if Ascii.eqb c sep then EmptyString :: split sep r
      else
        match split sep r with
        | [] => [String c EmptyString]
        | first :: others => String c first :: others
        end
  end.

(** The line feed. *)
Definition newline : ascii := ascii_of_nat 10.

(** The names [get_brew_packages] hands to [set(...)] for one call of
    [brew list]: [stdout.strip().split('\n')] if [stdout.strip()] is not
    empty, nothing otherwise. *)
Definition brew_names (stdout : string) : list string :=
  if strip stdout =? "" then [] else split newline (strip stdout).

End BrewOutput.

(** ** The numbered menu of [brew_scanner_simple.py] *)

Module Simple.

(** How a call of [get_user_choice] ends on the lines still to be typed:
    with the value returned and the lines not yet read, or with the
    [EOFError] of [input()] once the lines are used up. *)
Inductive ChoiceResult :=
  | Answered (choice : Z) (lines_left : list string)
  | EOFError.

Section GetUserChoice.

(** The builtin [int] on a string; [None] stands for [ValueError]. *)
Variable int : string -> option Z.

(** [get_user_choice] *)
Fixpoint get_user_choice (options : list string) (lines : list string)
    : ChoiceResult :=
  match lines with
  | [] => EOFError
  | line :: rest =>
      let choice := lower (BrewOutput.strip line) in
      if choice =? "q" then Answered (-1) rest
      else
        match int choice with
        | Some choice_num =>
            if ((1 <=? choice_num) && (choice_num <=? Z.of_nat (length options)))%Z
            then Answered (choice_num - 1) rest
            else get_user_choice options rest
        | None => get_user_choice options rest
        end
  end.

End GetUserChoice.

(** [int] on plain decimal numerals, enough to run the menu: an optional
    sign, then digits. *)
Fixpoint digits (acc : Z) (s : string) : option Z :=
  match s with
  | EmptyString => Some acc
  | String c r =>
      let n := nat_of_ascii c in
      if ((48 <=? n) && (n <=? 57))%nat
      then digits (10 * acc + Z.of_nat (n - 48))%Z r
      else None
  end.

Definition int_decimal (s : string) : option Z :=
  match s with
  | EmptyString => None
  | String "-" (String c r) => option_map Z.opp (digits 0 (String c r))
  | String "+" (String c r) => digits 0 (String c r)
  | String "-" EmptyString => None
  | String "+" EmptyString => None
  | _ => digits 0 s
  end.

End Simple.

(** ** The package templates of [core/config.py] *)

Module ConfigPy.

(** [d.get(key)] and [d[key] = value] on a dictionary, which keeps its
    keys in insertion order. *)
Fixpoint dict_lookup {V} (key : string) (d : list (string * V)) : option V :=
  match d with
  | [] => None
  | (k, v) :: rest => if k =? key then Some v else dict_lookup key rest
  end.

Fixpoint dict_store {V} (key : string) (value : V) (d : list (string * V))
    : list (string * V) :=
  match d with
  | [] => [(key, value)]
  | (k, v) :: rest =>
      if k =? key then (k, value) :: rest else (k, v) :: dict_store key value rest
  end.

Record PackageConfig := mkPackageConfig {
  essential_formulae : list string;
  development_formulae : list string;
  essential_casks : list string;
  development_casks : list string;
  productivity_casks : list string
}.

Module TemplateConfig.

Record t := mk {
  name : string;
  version : string;
  include_development : bool;
  include_productivity : bool;
  custom_formulae : list string;
  custom_casks : list string
}.

End TemplateConfig.

Record Config := mkConfig {
  app_name : string;
  version : string;
  packages : PackageConfig;
  templates : list (string * TemplateConfig.t);
  config_dir : string;
  templates_dir : string;
  output_dir : string
}.

(** The defaults of the three models; [home] is [Path.home()]. *)
Definition default_packages : PackageConfig :=
  mkPackageConfig
    ["git"; "curl"; "wget"; "tree"; "htop"; "jq"]
    ["node"; "npm"; "yarn"; "docker"; "docker-compose"; "cmake"]
    ["reminders-menubar"]
    ["visual-studio-code"; "docker"; "postman"]
    ["alt-tab"; "rectangle"; "obsidian"].

Definition default_template (name : string) (include_development
    include_productivity : bool) : TemplateConfig.t :=
  TemplateConfig.mk name "1.0.0" include_development include_productivity [] [].

Definition default_config (home : string) : Config :=
  mkConfig "Brew Manager" "1.0.0" default_packages
    [("minimal", default_template "minimal-vm" false false);
     ("development", default_template "dev-vm" true false);
     ("full", default_template "full-vm" true true)]
    (home ++ "/.config/brew-manager")
    (home ++ "/.config/brew-manager/templates")
    (home ++ "/Documents/brew-scripts").

(** [get_template_config] *)
Definition get_template_config (self : Config) (template_name : string)
    : option TemplateConfig.t :=
  dict_lookup template_name (templates self).

(** [add_template] *)
Definition add_template (self : Config) (name : string) (config : TemplateConfig.t)
    : Config :=
  mkConfig (app_name self) (version self) (packages self)
    (dict_store name config (templates self))
    (config_dir self) (templates_dir self) (output_dir self).

(** The dictionary [get_all_packages] returns. *)
Record PackageLists := mkPackageLists {
  formulae : list string;
  casks : list string
}.

Section GetAllPackages.

(** [list(set(l))]: the elements of [l] without repetition, in the order
    in which the interpreter iterates over the set. *)
Variable list_of_set : list string -> list string.

(** [get_all_packages] *)
Definition get_all_packages (self : Config) (template_name : string) : PackageLists :=
  match get_template_config self template_name with
  | None => mkPackageLists [] []
  | Some template =>
      let formulae0 := essential_formulae (packages self) in
      let casks0 := essential_casks (packages self) in
      let formulae1 :=
        if TemplateConfig.include_development template
        then (formulae0 ++ development_formulae (packages self))%list
        else formulae0 in
      let casks1 :=
        if TemplateConfig.include_development template
        then (casks0 ++ development_casks (packages self))%list
        else casks0 in
      let casks2 :=
        if TemplateConfig.include_productivity template
        then (casks1 ++ productivity_casks (packages self))%list
        else casks1 in
      let formulae2 := (formulae1 ++ TemplateConfig.custom_formulae template)%list in
      let casks3 := (casks2 ++ TemplateConfig.custom_casks template)%list in
      mkPackageLists (list_of_set formulae2) (list_of_set casks3)
  end.

End GetAllPackages.

(** One admissible order of [list(set(l))]: that of first occurrence. *)
Fixpoint first_occurrences (l : list string) : list string :=
  match l with
  | [] => []
  | x :: rest =>
      x :: filter (fun y => (y =? x) = false) (first_occurrences rest)
  end.

End ConfigPy.

(** ** Machines used to run the model *)

(** The machine of the specification's scenario: formulae [git] and [htop],
    the cask [visual-studio-code], and three bundles in [/Applications]. *)
Definition scenario_env : Env :=
  mkEnv (Some ["git"; "htop"]) (Some ["visual-studio-code"]) "darwin" "/Users/u"
    (fun d => if d =? "/Applications"
              then Some ["Git.app"; "Code.app"; "notes.txt"; "RandomTool.app"]
              else None).


(** A macOS machine on which the bundle [Code] matches a cask and a formula. *)
Definition both_env : Env :=
  mkEnv (Some ["code-server"]) (Some ["firefox"; "visual-studio-code"; "vscodium"])
    "darwin" "/Users/u"
    (fun d => if d =? "/Applications" then Some ["Code.app"] else None).

Definition both_record : AppInfo :=
  mkAppInfo "Code" "/Applications/Code.app" false None (Some true)
    (Some "visual-studio-code") None.

(** A Linux machine without casks: one desktop entry spelled like the
    formula [git-lfs], one spelled without the hyphen. *)
Definition linux_env : Env :=
  mkEnv (Some ["git-lfs"]) None "linux" "/home/u"
    (fun d => if d =? "/usr/share/applications"
              then Some ["gitlfs.desktop"; "git-lfs.desktop"; "mimeinfo.cache"]
              else None).

Definition linux_owned_record : AppInfo :=
  mkAppInfo "git-lfs" "/usr/share/applications/git-lfs.desktop" true
    (Some "formula") None None None.

Definition linux_near_record : AppInfo :=
  mkAppInfo "gitlfs" "/usr/share/applications/gitlfs.desktop" false
    None (Some true) (Some "git-lfs") None.

(** A macOS machine with a bundle whose file name is the bare extension. *)
Definition nameless_env : Env :=
  mkEnv (Some ["git"]) (Some ["firefox"]) "darwin" "/Users/u"
    (fun d => if d =? "/Applications" then Some [".app"; "Safari.app"] else None).

Definition nameless_record : AppInfo :=
  mkAppInfo "" "/Applications/.app" false None (Some true) (Some "firefox") None.

Definition random_tool_record : AppInfo :=
  mkAppInfo "RandomTool" "/Applications/RandomTool.app" false None (Some false) None None.

(** The scenario with both catalogs iterated in another order. *)
Definition scenario_env_reordered : Env :=
  mkEnv (Some ["htop"; "git"]) (Some ["visual-studio-code"]) "darwin" "/Users/u"
    (fun d => if d =? "/Applications"
              then Some ["Git.app"; "Code.app"; "notes.txt"; "RandomTool.app"]
              else None).

(** A macOS machine without any application directory. *)
Definition bare_env : Env :=
  mkEnv (Some ["git"]) (Some ["firefox"]) "darwin" "/Users/u" (fun _ => None).

(** A macOS machine whose formula listing had a blank line in it. *)
Definition blank_line_env : Env :=
  mkEnv (Some ["wget"; ""; "curl"]) (Some []) "darwin" "/Users/u"
    (fun d => if d =? "/Applications" then Some ["Safari.app"] else None).

Definition blank_line_record : AppInfo :=
  mkAppInfo "Safari" "/Applications/Safari.app" false None (Some true) (Some "") None.

(** Reading a boolean back from an exported dictionary: does the entry
    hold the JSON boolean [b]? *)
Definition holds_bool (b : bool) (entry : option json) : bool :=
  match entry with
  | Some (JBool b') => Bool.eqb b b'
  | _ => false
  end.

(** Every character of [s] is white space. *)
Fixpoint blank (s : string) : bool :=
  match s with
  | EmptyString => true
  | String c r => BrewOutput.isspace c && blank r
  end.

(** Key presses, to drive the menus. *)
Definition press (key_name : string) : Keyboard.KeyboardEvent :=
  Keyboard.mkEvent Keyboard.KEY_DOWN key_name.

Definition release (key_name : string) : Keyboard.KeyboardEvent :=
  Keyboard.mkEvent "up" key_name.

(** An arrow key press: [true] for the down arrow, [false] for the up arrow. *)
Definition arrow (down : bool) : Keyboard.KeyboardEvent :=
  press (if down then "down" else "up").

(** Down presses minus up presses. *)
Fixpoint net_moves (arrows : list bool) : Z :=
  match arrows with
  | [] => 0
  | down :: rest => ((if down then 1 else -1) + net_moves rest)%Z
  end.

(** The events [display_menu] reacts to: presses of the two arrows, of
    enter and of escape. *)
Definition acts (key : Keyboard.KeyboardEvent) : bool :=
  (Keyboard.event_type key =? Keyboard.KEY_DOWN) &&
  ((Keyboard.name key =? "up") || (Keyboard.name key =? "down") ||
   (Keyboard.name key =? "enter") || (Keyboard.name key =? "esc")).

(** The same end of a menu call, with only the acting events kept among
    those left unread. *)
Definition keep_acting (result : Interactive.MenuResult) : Interactive.MenuResult :=
  match result with
  | Interactive.Chosen choice selection rest =>
      Interactive.Chosen choice selection (List.filter acts rest)
  | other => other
  end.

(** An action of the main menu that went well: a browse was asked with
    one of the five filters, did not raise, and had data if it exported. *)
Definition action_ok (a : Interactive.Action) : Prop :=
  match a with
  | Interactive.Browsed filter_type result =>
      (2 <= filter_type <= 6)%Z /\
      match result with
      | Interactive.Raised _ | Interactive.OutOfFuel => False
      | Interactive.Exported data => is_Some data
      | _ => True
      end
  | _ => True
  end.

(** An action that shows no scan result: a scan itself, or a warning that
    there is no scan data. *)
Definition shows_nothing (a : Interactive.Action) : Prop :=
  match a with
  | Interactive.RanScan _ | Interactive.WarnedNoData
  | Interactive.Browsed _ Interactive.NoScanData => True
  | _ => False
  end.

(** Every action done before the first successful scan shows nothing. *)
Definition quiet_before_scan (trace : list Interactive.Action) : Prop :=
  forall before a after,
    trace = (before ++ a :: after)%list ->
    ~ In (Interactive.RanScan true) before ->
    shows_nothing a.

Definition plain_emojis : Interactive.Emojis :=
  Interactive.mkEmojis "[brew]" "[app]" "[?]" "[ok]" "[no]" "[!]" "[i]" "<-" "[*]".

(** ** Running the model on small inputs *)

Example lower_ex : lower "Visual Studio Code" = "visual studio code".
Proof. reflexivity. Qed.

Example replace_ex1 : replace " " "-" "visual studio code" = "visual-studio-code".
Proof. reflexivity. Qed.

Example replace_ex2 : replace "-" "" "visual-studio-code" = "visualstudiocode".
Proof. reflexivity. Qed.

Example contains_ex1 : contains "code" "visual-studio-code" = true.
Proof. reflexivity. Qed.

Example contains_ex2 : contains "" "git" = true /\ contains "git" "randomtool" = false.
Proof. split; reflexivity. Qed.

Example endswith_ex : endswith "Safari.app" ".app" = true /\ endswith "app" ".app" = false.
Proof. split; reflexivity. Qed.

Example drop_last_ex : drop_last 4 "Safari.app" = "Safari" /\ drop_last 4 ".app" = "".
Proof. split; reflexivity. Qed.

Example path_join_ex : path_join "/Applications" "Safari.app" = "/Applications/Safari.app".
Proof. reflexivity. Qed.

Example scenario_scan :
  installed_apps (snd (run_scan init scenario_env)) =
  [ mkAppInfo "Git" "/Applications/Git.app" false None (Some true) (Some "git") None;
    mkAppInfo "Code" "/Applications/Code.app" false None (Some true)
      (Some "visual-studio-code") None;
    mkAppInfo "RandomTool" "/Applications/RandomTool.app" false None (Some false) None None ].
Proof. vm_compute. reflexivity. Qed.

Example scenario_summary :
  show_summary (snd (run_scan init scenario_env)) = mkSummary 3 0 3 2.
Proof. vm_compute. reflexivity. Qed.

Example scenario_export :
  export_to_json (snd (run_scan init scenario_env)) "2024-01-01 00:00:00" =
  Some (JDict
    [("scan_timestamp", JStr "2024-01-01 00:00:00");
     ("total_apps", JInt 3);
     ("brew_managed", JInt 0);
     ("has_brew_equivalent", JInt 2);
     ("applications", JList
        [JDict [("name", JStr "Git"); ("path", JStr "/Applications/Git.app");
                ("is_brew", JBool false); ("brew_type", JNull);
                ("has_brew_equivalent", JBool true);
                ("brew_equivalent", JStr "git")];
         JDict [("name", JStr "Code"); ("path", JStr "/Applications/Code.app");
                ("is_brew", JBool false); ("brew_type", JNull);
                ("has_brew_equivalent", JBool true);
                ("brew_equivalent", JStr "visual-studio-code")];
         JDict [("name", JStr "RandomTool");
                ("path", JStr "/Applications/RandomTool.app");
                ("is_brew", JBool false); ("brew_type", JNull);
                ("has_brew_equivalent", JBool false);
                ("brew_equivalent", JNull)]])]).
Proof. vm_compute. reflexivity. Qed.

Example export_before_scan : export_to_json init "2024-01-01 00:00:00" = None.
Proof. reflexivity. Qed.

Example linux_scan :
  run_scan init linux_env =
  (true, mkScanner ["git-lfs"] [] [linux_near_record; linux_owned_record]).
Proof. vm_compute. reflexivity. Qed.

Example nameless_scan :
  run_scan init nameless_env =
  (true, mkScanner ["git"] ["firefox"]
           [nameless_record;
            mkAppInfo "Safari" "/Applications/Safari.app" false None (Some false)
              None None]).
Proof. vm_compute. reflexivity. Qed.

Example nameless_total :
  get "total_apps" (export_data (snd (run_scan init nameless_env)) "2024-01-01 00:00:00")
  = Some (JInt 2).
Proof. vm_compute. reflexivity. Qed.

(** ** Facts about the string primitives *)

Section Strings.

Lemma lower_char_idem (c : ascii) : lower_char (lower_char c) = lower_char c.
Proof. destruct c as [[] [] [] [] [] [] [] []]; reflexivity. Qed.

Lemma lower_char_space (c : ascii) :
  Ascii.eqb (lower_char c) " " = Ascii.eqb c " ".
Proof. destruct c as [[] [] [] [] [] [] [] []]; reflexivity. Qed.

Lemma lower_idem (s : string) : lower (lower s) = lower s.
Proof.
  induction s as [|c r IH]; simpl; [reflexivity|].
  now rewrite lower_char_idem, IH.
Qed.

Lemma prefix_spec (p s : string) :
  String.prefix p s = true <-> exists q, s = p ++ q.
Proof.
  revert s. induction p as [|a p IH]; intros s.
  - split; [intros _; exists s; reflexivity|]. intros _. now destruct s.
  - destruct s as [|b s]; simpl.
    + split; [discriminate|]. intros [q Hq]. discriminate.
    + destruct (ascii_dec a b) as [->|Hne].
      * rewrite IH. split; intros [q Hq]; exists q; [now rewrite Hq|].
        now injection Hq.
      * split; [discriminate|]. intros [q Hq]. injection Hq. congruence.
Qed.

Lemma contains_spec (sub s : string) :
  contains sub s = true <-> Spec.substring_of sub s.
Proof.
  unfold Spec.substring_of. induction s as [|c r IH].
  - cbn [contains]. rewrite orb_false_r, prefix_spec. split.
    + intros [q Hq]. exists "", q. exact Hq.
    + intros [b [a H]]. destruct b; [|discriminate]. now exists a.
  - cbn [contains]. rewrite orb_true_iff, prefix_spec, IH. split.
    + intros [[q Hq]|[b [a H]]].
      * exists "", q. exact Hq.
      * exists (String c b), a. simpl. now rewrite H.
    + intros [[|c' b] [a H]].
      * left. now exists a.
      * right. exists b, a. simpl in H. now injection H.
Qed.

Lemma contains_empty (s : string) : contains "" s = true.
Proof. apply contains_spec. exists "", s. reflexivity. Qed.

Lemma app_key_cons (c : ascii) (r : string) :
  app_key (String c r) =
  String (if Ascii.eqb c " " then "-"%char else lower_char c) (app_key r).
Proof.
  unfold app_key. simpl. rewrite lower_char_space.
  now destruct (Ascii.eqb c " ").
Qed.

Lemma app_key_idem (n : string) : app_key (app_key n) = app_key n.
Proof.
  induction n as [|c r IH]; [reflexivity|].
  rewrite !app_key_cons, IH. f_equal.
  destruct (Ascii.eqb c " ") eqn:E; [reflexivity|].
  now rewrite lower_char_space, E, lower_char_idem.
Qed.

Lemma app_key_empty (n : string) : app_key n = "" <-> n = "".
Proof.
  split; [|now intros ->]. destruct n; [reflexivity|].
  rewrite app_key_cons. discriminate.
Qed.

End Strings.

(** ** The tests of the code against the rules of the specification *)

Section Matching.

Lemma equiv_test_spec (key entry : string) :
  equiv_test key entry = true <-> Spec.equiv_match key entry.
Proof.
  unfold equiv_test, Spec.equiv_match.
  rewrite !orb_true_iff, !String.eqb_eq, !contains_spec. tauto.
Qed.

Lemma equiv_test_false (key entry : string) :
  equiv_test key entry = false <-> ~ Spec.equiv_match key entry.
Proof. rewrite <- equiv_test_spec. now destruct (equiv_test key entry). Qed.

Lemma cask_owns_spec (app_name cask : string) :
  cask_owns (lower app_name) cask = true <-> Spec.owner_match app_name cask.
Proof.
  unfold cask_owns, Spec.owner_match.
  rewrite !orb_true_iff, !String.eqb_eq. tauto.
Qed.

Lemma first_match_nil (P : string -> Prop) (x : string) :
  ~ Spec.first_match P [] x.
Proof. intros [[|? ?] [? [? _]]]; discriminate. Qed.

Lemma first_match_here (P : string -> Prop) (x : string) (l : list string) :
  P x -> Spec.first_match P (x :: l) x.
Proof. intros H. exists [], l. repeat split; [assumption|]. intros y []. Qed.

Lemma first_match_later (P : string -> Prop) (x y : string) (l : list string) :
  ~ P y -> Spec.first_match P l x -> Spec.first_match P (y :: l) x.
Proof.
  intros Hy (b & a & -> & Hx & Hb). exists (y :: b), a.
  repeat split; [assumption|]. intros z [<-|Hz]; auto.
Qed.

Lemma first_match_cons (P : string -> Prop) (x y : string) (l : list string) :
  Spec.first_match P (y :: l) x ->
  (x = y /\ P y) \/ (~ P y /\ Spec.first_match P l x).
Proof.
  intros ([|z b] & a & E & Hx & Hb); simpl in E; injection E as -> ->.
  - now left.
  - right. split; [apply Hb; now left|]. exists b, a.
    repeat split; [assumption|]. intros w Hw. apply Hb. now right.
Qed.

Lemma first_match_In (P : string -> Prop) (x : string) (l : list string) :
  Spec.first_match P l x -> In x l /\ P x.
Proof.
  intros (b & a & -> & Hx & _). split; [|assumption].
  apply in_or_app. right. now left.
Qed.

(** Whatever the catalog, the loop either stops at the first matching
    entry or leaves the record untouched because nothing matches. *)
Lemma search_loop_cases (key : string) (catalog : list string) (app : AppInfo) :
  (exists e, Spec.first_match (Spec.equiv_match key) catalog e /\
             search_loop key catalog app = set_equivalent app e) \/
  ((forall e, In e catalog -> ~ Spec.equiv_match key e) /\
   search_loop key catalog app = app).
Proof.
  induction catalog as [|y l IH]; simpl.
  - right. split; [intros e []|reflexivity].
  - destruct (equiv_test key y) eqn:E.
    + left. exists y. split; [|reflexivity].
      apply first_match_here. now apply equiv_test_spec.
    + apply equiv_test_false in E. destruct IH as [(e & Hf & He)|(Hn & He)].
      * left. exists e. split; [now apply first_match_later|exact He].
      * right. split; [|exact He]. intros e [<-|Hin]; auto.
Qed.

Lemma first_match_unique (P : string -> Prop) (l : list string) (x y : string) :
  Spec.first_match P l x -> Spec.first_match P l y -> x = y.
Proof.
  induction l as [|z l IH]; intros Hx Hy.
  - now apply first_match_nil in Hx.
  - apply first_match_cons in Hx. apply first_match_cons in Hy.
    destruct Hx as [[-> Hx]|[Hnx Hx]], Hy as [[-> Hy]|[Hny Hy]];
      try reflexivity; try contradiction. now apply IH.
Qed.

Lemma search_loop_first (key : string) (catalog : list string) (app : AppInfo)
    (e : string) :
  Spec.first_match (Spec.equiv_match key) catalog e ->
  search_loop key catalog app = set_equivalent app e.
Proof.
  intros He. destruct (search_loop_cases key catalog app)
    as [(e' & Hf & Hs)|(Hn & _)].
  - now rewrite (first_match_unique _ _ _ _ He Hf).
  - apply first_match_In in He as [Hin Hm]. now apply Hn in Hin.
Qed.

Lemma search_loop_none (key : string) (catalog : list string) (app : AppInfo) :
  (forall e, In e catalog -> ~ Spec.equiv_match key e) ->
  search_loop key catalog app = app.
Proof.
  intros Hn. destruct (search_loop_cases key catalog app)
    as [(e & Hf & _)|(_ & Hs)]; [|exact Hs].
  apply first_match_In in Hf as [Hin Hm]. now apply Hn in Hin.
Qed.

Lemma first_match_exists (key : string) (catalog : list string) :
  (exists e, In e catalog /\ Spec.equiv_match key e) ->
  exists e, Spec.first_match (Spec.equiv_match key) catalog e.
Proof.
  intros (e & Hin & Hm).
  destruct (search_loop_cases key catalog (mkAppInfo "" "" false None None None None))
    as [(e' & Hf & _)|(Hn & _)]; [now exists e'|].
  now apply Hn in Hin.
Qed.

End Matching.

(** ** One record through [check_brew_equivalents] *)

Section CheckApp.

Variable self : Scanner.

Lemma check_app_owned (app : AppInfo) :
  is_brew app = true -> check_app self app = app.
Proof. intros H. unfold check_app. now rewrite H. Qed.

Lemma check_app_cask (app : AppInfo) (c : string) :
  is_brew app = false ->
  Spec.first_match (Spec.equiv_match (app_key (name app))) (brew_casks self) c ->
  check_app self app = set_equivalent app c.
Proof.
  intros Hb Hc. unfold check_app. rewrite Hb. simpl.
  now rewrite (search_loop_first _ _ _ _ Hc).
Qed.

Lemma check_app_formula (app : AppInfo) (f : string) :
  is_brew app = false ->
  truthy (has_brew_equivalent app) = false ->
  (forall c, In c (brew_casks self) -> ~ Spec.equiv_match (app_key (name app)) c) ->
  Spec.first_match (Spec.equiv_match (app_key (name app))) (brew_formulae self) f ->
  check_app self app = set_equivalent app f.
Proof.
  intros Hb Hh Hc Hf. unfold check_app. rewrite Hb. simpl.
  rewrite (search_loop_none _ _ _ Hc), Hh. simpl.
  now rewrite (search_loop_first _ _ _ _ Hf).
Qed.

Lemma check_app_none (app : AppInfo) :
  is_brew app = false ->
  truthy (has_brew_equivalent app) = false ->
  (forall c, In c (brew_casks self) -> ~ Spec.equiv_match (app_key (name app)) c) ->
  (forall f, In f (brew_formulae self) -> ~ Spec.equiv_match (app_key (name app)) f) ->
  check_app self app = set_no_equivalent app.
Proof.
  intros Hb Hh Hc Hf. unfold check_app. rewrite Hb. simpl.
  rewrite (search_loop_none _ _ _ Hc), Hh. simpl.
  now rewrite (search_loop_none _ _ _ Hf), Hh.
Qed.

Lemma check_app_name (app : AppInfo) : name (check_app self app) = name app.
Proof.
  unfold check_app. destruct (is_brew app); simpl; [reflexivity|].
  destruct (search_loop_cases (app_key (name app)) (brew_casks self) app)
    as [(c & _ & ->)|(_ & ->)]; simpl; [reflexivity|].
  destruct (truthy (has_brew_equivalent app)) eqn:Hh; simpl; [now rewrite Hh|].
  destruct (search_loop_cases (app_key (name app)) (brew_formulae self) app)
    as [(f & _ & ->)|(_ & ->)]; simpl; [reflexivity|]. now rewrite Hh.
Qed.

Lemma check_app_is_brew (app : AppInfo) : is_brew (check_app self app) = is_brew app.
Proof.
  unfold check_app. destruct (is_brew app) eqn:Hb; simpl; [assumption|].
  destruct (search_loop_cases (app_key (name app)) (brew_casks self) app)
    as [(c & _ & ->)|(_ & ->)]; simpl; [assumption|].
  destruct (truthy (has_brew_equivalent app)) eqn:Hh; simpl; [now rewrite Hh|].
  destruct (search_loop_cases (app_key (name app)) (brew_formulae self) app)
    as [(f & _ & ->)|(_ & ->)]; simpl; [assumption|]. now rewrite Hh.
Qed.

End CheckApp.

(** ** The in-place loop of [check_brew_equivalents] *)

Section Store.

Variable self : Scanner.

Lemma check_loop_app (done todo : list AppInfo) :
  check_loop self (seq (length done) (length todo)) (done ++ todo)%list =
  (done ++ map (check_app self) todo)%list.
Proof.
  revert done. induction todo as [|a todo IH]; intros done; [reflexivity|].
  cbn [length seq check_loop map].
  replace (alter (check_app self) (length done) (done ++ a :: todo)%list)
    with ((done ++ [check_app self a]) ++ todo)%list.
  - specialize (IH (done ++ [check_app self a])%list).
    rewrite length_app, Nat.add_1_r in IH. rewrite IH.
    now rewrite <- app_assoc.
  - pose proof (alter_app_r (check_app self) done (a :: todo) 0) as E.
    rewrite Nat.add_0_r in E. rewrite E, <- app_assoc. reflexivity.
Qed.

Lemma check_brew_equivalents_map (apps : list AppInfo) :
  check_brew_equivalents self apps = map (check_app self) apps.
Proof. exact (check_loop_app [] apps). Qed.

End Store.

(** ** What the discovery pass creates *)

Section Discovery.

Variables (self : Scanner) (env : Env).

Lemma scan_dirs_In (per_item : string -> string -> list AppInfo)
    (dirs : list string) (a : AppInfo) :
  In a (scan_dirs per_item env dirs) ->
  exists d item, In a (per_item d item).
Proof.
  unfold scan_dirs. rewrite in_flat_map. intros (d & _ & Ha).
  destruct (listdir env d) as [items|]; [|destruct Ha].
  apply in_flat_map in Ha as (item & _ & Ha). now exists d, item.
Qed.

Lemma macos_item_created (d item : string) (a : AppInfo) :
  In a (macos_item self d item) -> created_macos self a.
Proof.
  unfold macos_item. destruct (endswith item ".app"); [|intros []].
  intros [<-|[]]. repeat split.
Qed.

Lemma linux_item_created (d item : string) (a : AppInfo) :
  In a (linux_item self d item) -> created_linux self a.
Proof.
  unfold linux_item. destruct (endswith item ".desktop"); [|intros []].
  intros [<-|[]]. repeat split.
Qed.

Lemma get_applications_macos_created (a : AppInfo) :
  In a (get_applications_macos self env) -> created_macos self a.
Proof.
  intros H. apply scan_dirs_In in H as (d & item & H).
  now apply macos_item_created in H.
Qed.

Lemma get_applications_linux_created (a : AppInfo) :
  In a (get_applications_linux self env) -> created_linux self a.
Proof.
  intros H. apply scan_dirs_In in H as (d & item & H).
  now apply linux_item_created in H.
Qed.

End Discovery.

(** ** A successful scan, taken apart *)

Section RunScan.

Variables (self : Scanner) (env : Env) (s' : Scanner).
Hypothesis Hrun : run_scan self env = (true, s').

Lemma run_scan_catalogs :
  brew_list_formula env = Some (brew_formulae s') /\
  brew_casks s' = default [] (brew_list_cask env).
Proof.
  revert Hrun. unfold run_scan, get_brew_packages.
  destruct (brew_list_formula env) as [formulae|]; [|discriminate].
  destruct (sys_platform env =? "darwin");
    [|destruct (startswith (sys_platform env) "linux"); [|discriminate]];
    intros [= <-]; split; reflexivity.
Qed.

Lemma run_scan_apps :
  (sys_platform env = "darwin" /\
   installed_apps s' = map (check_app s') (get_applications_macos s' env)) \/
  (sys_platform env <> "darwin" /\
   startswith (sys_platform env) "linux" = true /\
   installed_apps s' = map (check_app s') (get_applications_linux s' env)).
Proof.
  revert Hrun. unfold run_scan, get_brew_packages.
  destruct (brew_list_formula env) as [formulae|]; [|discriminate].
  destruct (sys_platform env =? "darwin") eqn:Ed.
  - apply String.eqb_eq in Ed. intros [= <-]. left. split; [assumption|].
    cbn [installed_apps]. now rewrite check_brew_equivalents_map.
  - apply String.eqb_neq in Ed.
    destruct (startswith (sys_platform env) "linux") eqn:El; [|discriminate].
    intros [= <-]. right. repeat split; [assumption|].
    cbn [installed_apps]. now rewrite check_brew_equivalents_map.
Qed.

(** Every record of the scan is a freshly created record passed once
    through the body of [check_brew_equivalents]. *)
Lemma run_scan_record (r : AppInfo) :
  In r (installed_apps s') ->
  exists a, r = check_app s' a /\
    ((sys_platform env = "darwin" /\ created_macos s' a) \/
     (sys_platform env <> "darwin" /\ created_linux s' a)).
Proof.
  intros Hr. destruct run_scan_apps as [(Hd & E)|(Hd & _ & E)];
    rewrite E in Hr; apply in_map_iff in Hr as (a & <- & Ha); exists a;
    (split; [reflexivity|]).
  - left. split; [assumption|]. now apply (get_applications_macos_created _ env).
  - right. split; [assumption|]. now apply (get_applications_linux_created _ env).
Qed.

End RunScan.

(** A record of the scan that is not manager-owned comes from a fresh
    record with the same name. *)
Lemma run_scan_non_owned (self : Scanner) (env : Env) (s' : Scanner) (r : AppInfo) :
  run_scan self env = (true, s') ->
  In r (installed_apps s') ->
  is_brew r = false ->
  exists a, r = check_app s' a /\ is_brew a = false /\ fresh a /\ name a = name r.
Proof.
  intros Hrun Hr Hb. destruct (run_scan_record _ _ _ Hrun r Hr) as (a & -> & Ha).
  exists a. rewrite check_app_is_brew in Hb. rewrite check_app_name.
  repeat split; try assumption;
    destruct Ha as [(_ & (Hf & _))|(_ & (Hf & _))]; apply Hf.
Qed.

(** A fresh record that is not manager-owned leaves the loop body in one
    of three ways. *)
Lemma check_app_fresh_cases (self : Scanner) (a : AppInfo) :
  is_brew a = false ->
  fresh a ->
  let matches := Spec.equiv_match (app_key (name a)) in
  (exists c, Spec.first_match matches (brew_casks self) c /\
             check_app self a = set_equivalent a c) \/
  ((forall c, In c (brew_casks self) -> ~ matches c) /\
   exists f, Spec.first_match matches (brew_formulae self) f /\
             check_app self a = set_equivalent a f) \/
  ((forall c, In c (brew_casks self) -> ~ matches c) /\
   (forall f, In f (brew_formulae self) -> ~ matches f) /\
   check_app self a = set_no_equivalent a).
Proof.
  intros Hb (Hh & _) matches. subst matches.
  assert (Ht : truthy (has_brew_equivalent a) = false) by now rewrite Hh.
  destruct (search_loop_cases (app_key (name a)) (brew_casks self) a)
    as [(c & Hc & _)|(Hc & _)].
  - left. exists c. split; [assumption|]. now apply check_app_cask.
  - right.
    destruct (search_loop_cases (app_key (name a)) (brew_formulae self) a)
      as [(f & Hf & _)|(Hf & _)].
    + left. split; [assumption|]. exists f. split; [assumption|].
      now apply check_app_formula.
    + right. repeat split; try assumption. now apply check_app_none.
Qed.

(** The three shapes a record can have once the scan is over. *)
Lemma run_scan_record_shape (self : Scanner) (env : Env) (s' : Scanner) (r : AppInfo) :
  run_scan self env = (true, s') ->
  In r (installed_apps s') ->
  (is_brew r = true /\ is_Some (brew_type r) /\
   has_brew_equivalent r = None /\ brew_equivalent r = None) \/
  (is_brew r = false /\ brew_type r = None /\
   has_brew_equivalent r = Some true /\
   exists e, brew_equivalent r = Some e /\
             Spec.equiv_match (app_key (name r)) e /\
             (In e (brew_casks s') \/ In e (brew_formulae s'))) \/
  (is_brew r = false /\ brew_type r = None /\
   has_brew_equivalent r = Some false /\ brew_equivalent r = None).
Proof.
  intros Hrun Hr.
  destruct (run_scan_record _ _ _ Hrun r Hr) as (a & -> & Ha).
  assert (Hc : fresh a /\ exists cat : string,
                 brew_type a = if is_brew a then Some cat else None).
  { destruct Ha as [(_ & Hf & _ & Ht)|(_ & Hf & _ & Ht)]; split; eauto. }
  destruct Hc as (Hf & cat & Ht). rewrite check_app_name.
  destruct (is_brew a) eqn:Hb.
  - left. rewrite (check_app_owned s' a Hb), Ht. destruct Hf as (Hh & He).
    repeat split; eauto.
  - right. destruct Hf as (Hh & He).
    destruct (check_app_fresh_cases s' a Hb (conj Hh He))
      as [(c & Hc & ->)|[(_ & f & Hc & ->)|(_ & _ & ->)]]; simpl.
    + left. apply first_match_In in Hc as (Hin & Hm).
      repeat split; try assumption. exists c. auto.
    + left. apply first_match_In in Hc as (Hin & Hm).
      repeat split; try assumption. exists f. auto.
    + right. repeat split; assumption.
Qed.

(** Counting the owned and the other records covers the whole list. *)
Lemma owned_split (apps : list AppInfo) :
  length apps =
  length (filter (fun a => is_brew a = true) apps) +
  length (filter (fun a => is_brew a = false) apps).
Proof.
  induction apps as [|a apps IH]; [reflexivity|].
  rewrite !filter_cons. destruct (is_brew a) eqn:E.
  - rewrite decide_True, decide_False by congruence. simpl. lia.
  - rewrite decide_False, decide_True by congruence. simpl. lia.
Qed.

Lemma export_filter_equiv (apps : list AppInfo) :
  filter (fun a => negb (is_brew a) && truthy (has_brew_equivalent a) = true) apps =
  filter (fun a => is_brew a = false /\ has_brew_equivalent a = Some true) apps.
Proof.
  apply list_filter_iff. intros a.
  destruct (is_brew a), (has_brew_equivalent a) as [[]|]; simpl; intuition congruence.
Qed.

Lemma summary_filter_equiv (apps : list AppInfo) :
  filter (fun a => truthy (has_brew_equivalent a) = true)
    (filter (fun a => is_brew a = false) apps) =
  filter (fun a => is_brew a = false /\ has_brew_equivalent a = Some true) apps.
Proof.
  rewrite list_filter_filter. apply list_filter_iff. intros a.
  destruct (is_brew a), (has_brew_equivalent a) as [[]|]; simpl; intuition congruence.
Qed.

(** Once a scan has found an application, [export_to_json] exports. *)
Lemma export_to_json_some (self : Scanner) (timestamp : string) :
  installed_apps self <> [] ->
  export_to_json self timestamp = Some (export_data self timestamp).
Proof. unfold export_to_json. now destruct (installed_apps self). Qed.

Lemma check_app_path (self : Scanner) (app : AppInfo) :
  path (check_app self app) = path app.
Proof.
  unfold check_app. destruct (is_brew app); simpl; [reflexivity|].
  destruct (search_loop_cases (app_key (name app)) (brew_casks self) app)
    as [(c & _ & ->)|(_ & ->)]; simpl; [reflexivity|].
  destruct (truthy (has_brew_equivalent app)) eqn:Hh; simpl; [now rewrite Hh|].
  destruct (search_loop_cases (app_key (name app)) (brew_formulae self) app)
    as [(f & _ & ->)|(_ & ->)]; simpl; [reflexivity|]. now rewrite Hh.
Qed.

(** ** Raw entries and the records made from them *)

Section RawEntries.

Variables (self : Scanner) (env : Env).

Lemma macos_items_entries (d : string) (items : list string) :
  map ident (flat_map (macos_item self d) items) =
  map (of_entry 4)
    (filter (fun e => endswith (snd e) ".app" = true) (map (pair d) items)).
Proof.
  induction items as [|i items IH]; [reflexivity|].
  cbn [flat_map map]. rewrite map_app, IH, filter_cons. unfold macos_item.
  cbn [snd]. destruct (endswith i ".app") eqn:E.
  - rewrite decide_True by reflexivity. reflexivity.
  - rewrite decide_False by discriminate. reflexivity.
Qed.

Lemma linux_items_entries (d : string) (items : list string) :
  map ident (flat_map (linux_item self d) items) =
  map (of_entry 8)
    (filter (fun e => endswith (snd e) ".desktop" = true) (map (pair d) items)).
Proof.
  induction items as [|i items IH]; [reflexivity|].
  cbn [flat_map map]. rewrite map_app, IH, filter_cons. unfold linux_item.
  cbn [snd]. destruct (endswith i ".desktop") eqn:E.
  - rewrite decide_True by reflexivity. reflexivity.
  - rewrite decide_False by discriminate. reflexivity.
Qed.

Lemma macos_entries (dirs : list string) :
  map ident (scan_dirs (macos_item self) env dirs) =
  map (of_entry 4)
    (filter (fun e => endswith (snd e) ".app" = true) (Spec.raw_entries env dirs)).
Proof.
  unfold scan_dirs, Spec.raw_entries.
  induction dirs as [|d dirs IH]; [reflexivity|].
  cbn [flat_map]. rewrite map_app, filter_app, map_app, IH. f_equal.
  destruct (listdir env d) as [items|]; [apply macos_items_entries|reflexivity].
Qed.

Lemma linux_entries (dirs : list string) :
  map ident (scan_dirs (linux_item self) env dirs) =
  map (of_entry 8)
    (filter (fun e => endswith (snd e) ".desktop" = true) (Spec.raw_entries env dirs)).
Proof.
  unfold scan_dirs, Spec.raw_entries.
  induction dirs as [|d dirs IH]; [reflexivity|].
  cbn [flat_map]. rewrite map_app, filter_app, map_app, IH. f_equal.
  destruct (listdir env d) as [items|]; [apply linux_items_entries|reflexivity].
Qed.

Lemma classified_ident (apps : list AppInfo) :
  map ident (map (check_app self) apps) = map ident apps.
Proof.
  rewrite map_map. apply map_ext. intros a. unfold ident.
  now rewrite check_app_name, check_app_path.
Qed.

End RawEntries.

(** ** The claims *)

(** C1. For a record of the scan that is not manager-owned, the cask
    catalog is searched first and the formula catalog only when no cask
    matches; in a catalog the first entry, in iteration order, that passes
    one of the four tests is taken. So when the key matches a cask and a
    formula, the equivalent that is chosen is a cask. *)
Theorem cask_before_formula (self : Scanner) (env : Env) (s' : Scanner) (r : AppInfo) :
  run_scan self env = (true, s') ->
  In r (installed_apps s') ->
  is_brew r = false ->
  let matches := Spec.equiv_match (app_key (name r)) in
  (forall c, Spec.first_match matches (brew_casks s') c ->
     has_brew_equivalent r = Some true /\ brew_equivalent r = Some c) /\
  (forall f, (forall c, In c (brew_casks s') -> ~ matches c) ->
     Spec.first_match matches (brew_formulae s') f ->
     has_brew_equivalent r = Some true /\ brew_equivalent r = Some f) /\
  ((exists c, In c (brew_casks s') /\ matches c) ->
   (exists f, In f (brew_formulae s') /\ matches f) ->
   exists c, Spec.first_match matches (brew_casks s') c /\
             brew_equivalent r = Some c).
Proof.
  intros Hrun Hr Hb matches. subst matches.
  destruct (run_scan_non_owned _ _ _ _ Hrun Hr Hb) as (a & -> & Ha & (Hh & _) & <-).
  split; [|split].
  - intros c Hc. rewrite (check_app_cask s' a c Ha Hc). split; reflexivity.
  - intros f Hn Hf. rewrite (check_app_formula s' a f Ha); try assumption.
    + split; reflexivity.
    + now rewrite Hh.
  - intros Hc _. apply first_match_exists in Hc as (c & Hc). exists c.
    split; [assumption|]. now rewrite (check_app_cask s' a c Ha Hc).
Qed.

Lemma cask_before_formula_witness :
  run_scan init both_env = (true, snd (run_scan init both_env)) /\
  In both_record (installed_apps (snd (run_scan init both_env))) /\
  is_brew both_record = false /\
  exists c, Spec.first_match (Spec.equiv_match "code")
              ["firefox"; "visual-studio-code"; "vscodium"] c /\
            brew_equivalent both_record = Some c.
Proof.
  assert (H1 : run_scan init both_env = (true, snd (run_scan init both_env)))
    by (vm_compute; reflexivity).
  assert (H2 : In both_record (installed_apps (snd (run_scan init both_env))))
    by (vm_compute; left; reflexivity).
  assert (H3 : is_brew both_record = false) by reflexivity.
  repeat split; try assumption.
  apply (cask_before_formula init both_env _ both_record H1 H2 H3).
  - exists "visual-studio-code". split; [vm_compute; tauto|].
    apply equiv_test_spec. vm_compute. reflexivity.
  - exists "code-server". split; [vm_compute; tauto|].
    apply equiv_test_spec. vm_compute. reflexivity.
Defined.

(** Stage 1 with its three tests fails on Linux: the desktop entry
    [gitlfs] equals the formula [git-lfs] once hyphens are removed, yet it
    is not classified as owned, and the equivalence search runs and
    suggests [git-lfs]. *)
Lemma stage1_three_tests_fails_on_linux :
  ~ Spec.stage1_three_tests init linux_env.
Proof.
  intros H.
  destruct (H (snd (run_scan init linux_env)) linux_near_record) as (Hb & _).
  - vm_compute. reflexivity.
  - vm_compute. left. reflexivity.
  - exists "git-lfs". split; [vm_compute; tauto|].
    right. left. vm_compute. reflexivity.
  - discriminate Hb.
Qed.

(** Stage 1 as each platform's function has it. On macOS a record is
    owned exactly when some cask passes one of the three equality tests; on
    Linux exactly when some formula has the same lowercase name (the first
    test alone). An owned record has its origin's category as [brew_type]
    and goes through no equivalence search. In particular a name equal, up
    to case, to an entry of its origin's catalog is owned and carries no
    equivalent. *)
Theorem stage1_ownership (self : Scanner) (env : Env) (s' : Scanner) (r : AppInfo) :
  run_scan self env = (true, s') ->
  In r (installed_apps s') ->
  (sys_platform env = "darwin" ->
     (is_brew r = true <->
      exists c, In c (brew_casks s') /\ Spec.owner_match (name r) c)) /\
  (sys_platform env <> "darwin" ->
     (is_brew r = true <->
      exists f, In f (brew_formulae s') /\ lower f = lower (name r))) /\
  (is_brew r = true ->
     brew_type r = Some (Spec.origin_category env) /\
     has_brew_equivalent r = None /\
     brew_equivalent r = None) /\
  ((exists e, In e (Spec.origin_catalog env s') /\ lower e = lower (name r)) ->
     is_brew r = true /\ brew_equivalent r = None).
Proof.
  intros Hrun Hr.
  destruct (run_scan_record _ _ _ Hrun r Hr) as (a & -> & Ha).
  rewrite check_app_is_brew, check_app_name.
  assert (Hmac : sys_platform env = "darwin" -> created_macos s' a)
    by (intros E; destruct Ha as [[_ H]|[N _]]; [exact H|contradiction]).
  assert (Hlin : sys_platform env <> "darwin" -> created_linux s' a)
    by (intros E; destruct Ha as [[N _]|[_ H]]; [contradiction|exact H]).
  assert (Iffm : sys_platform env = "darwin" ->
            (is_brew a = true <->
             exists c, In c (brew_casks s') /\ Spec.owner_match (name a) c)).
  { intros E. destruct (Hmac E) as (_ & -> & _). rewrite existsb_exists.
    split; intros (c & Hin & Hc); exists c; (split; [assumption|]);
      now apply cask_owns_spec. }
  assert (Iffl : sys_platform env <> "darwin" ->
            (is_brew a = true <->
             exists f, In f (brew_formulae s') /\ lower f = lower (name a))).
  { intros E. destruct (Hlin E) as (_ & -> & _). rewrite existsb_exists. split.
    - intros (x & Hin & Hx). apply in_map_iff in Hin as (f & <- & Hin).
      apply String.eqb_eq in Hx. now exists f.
    - intros (f & Hin & Hf). exists (lower f). split; [now apply in_map|].
      apply String.eqb_eq. now symmetry. }
  assert (Own : is_brew a = true ->
            brew_type (check_app s' a) = Some (Spec.origin_category env) /\
            has_brew_equivalent (check_app s' a) = None /\
            brew_equivalent (check_app s' a) = None).
  { intros Hb. rewrite (check_app_owned s' a Hb). unfold Spec.origin_category.
    destruct Ha as [(E & (Hh & He) & _ & Ht)|(E & (Hh & He) & _ & Ht)];
      rewrite Ht, Hb.
    - apply String.eqb_eq in E. now rewrite E.
    - apply String.eqb_neq in E. now rewrite E. }
  repeat split; try (apply Iffm; assumption); try (apply Iffl; assumption);
    try (apply Own; assumption).
  - destruct H as (e & Hin & He). unfold Spec.origin_catalog in Hin.
    destruct (sys_platform env =? "darwin") eqn:E.
    + apply String.eqb_eq in E. apply (Iffm E). exists e.
      split; [assumption|]. now left.
    + apply String.eqb_neq in E. apply (Iffl E). now exists e.
  - apply Own. destruct H as (e & Hin & He). unfold Spec.origin_catalog in Hin.
    destruct (sys_platform env =? "darwin") eqn:E.
    + apply String.eqb_eq in E. apply (Iffm E). exists e.
      split; [assumption|]. now left.
    + apply String.eqb_neq in E. apply (Iffl E). now exists e.
Qed.

Lemma stage1_ownership_witness :
  run_scan init linux_env = (true, snd (run_scan init linux_env)) /\
  In linux_owned_record (installed_apps (snd (run_scan init linux_env))) /\
  is_brew linux_owned_record = true /\
  brew_equivalent linux_owned_record = None.
Proof.
  assert (H1 : run_scan init linux_env = (true, snd (run_scan init linux_env)))
    by (vm_compute; reflexivity).
  assert (H2 : In linux_owned_record (installed_apps (snd (run_scan init linux_env))))
    by (vm_compute; right; left; reflexivity).
  split; [exact H1|]. split; [exact H2|].
  apply (stage1_ownership init linux_env _ linux_owned_record H1 H2).
  exists "git-lfs". split; [vm_compute; tauto|]. reflexivity.
Defined.

(** On macOS Stage 1 is what the specification says: the three tests,
    against the casks. *)
Lemma stage1_three_tests_on_macos (self : Scanner) (env : Env) :
  sys_platform env = "darwin" -> Spec.stage1_three_tests self env.
Proof.
  intros Hd s' r Hrun Hr (e & Hin & Hm).
  destruct (stage1_ownership self env s' r Hrun Hr) as (Hmac & _ & Hown & _).
  assert (Hb : is_brew r = true).
  { apply (Hmac Hd). exists e. split; [|exact Hm].
    unfold Spec.origin_catalog in Hin. apply String.eqb_eq in Hd.
    now rewrite Hd in Hin. }
  split; [exact Hb|]. now apply Hown.
Qed.

(** C2. The code at the failing input. On a Linux machine with the
    formula [git-lfs] installed, the desktop entry [gitlfs] passes the
    second test of Stage 1 against that formula, which is in the catalog of
    its origin; [get_applications_linux] compares lowercase names only, so
    the record is created with [is_brew = False], the equivalence search
    runs and suggests [git-lfs]. Stage 1 with its three tests, which
    [get_applications_macos] applies, does not hold of this scan. *)
Theorem linux_ownership_skips_hyphen_test :
  run_scan init linux_env =
    (true, mkScanner ["git-lfs"] [] [linux_near_record; linux_owned_record]) /\
  Spec.owner_match (name linux_near_record) "git-lfs" /\
  is_brew linux_near_record = false /\
  has_brew_equivalent linux_near_record = Some true /\
  brew_equivalent linux_near_record = Some "git-lfs" /\
  ~ Spec.stage1_three_tests init linux_env.
Proof.
  split; [vm_compute; reflexivity|].
  split; [right; left; vm_compute; reflexivity|].
  repeat (split; [reflexivity|]).
  exact stage1_three_tests_fails_on_linux.
Qed.

(** C3. For every record of a scan: [brew_type] is set exactly when
    [is_brew] holds; [brew_equivalent] is set exactly when
    [has_brew_equivalent] is [True]; and no record is both manager-owned
    and carrying an equivalent. *)
Theorem record_invariant (self : Scanner) (env : Env) (s' : Scanner) (r : AppInfo) :
  run_scan self env = (true, s') ->
  In r (installed_apps s') ->
  (is_Some (brew_type r) <-> is_brew r = true) /\
  (is_Some (brew_equivalent r) <-> has_brew_equivalent r = Some true) /\
  ~ (is_brew r = true /\ is_Some (brew_equivalent r)).
Proof.
  intros Hrun Hr.
  destruct (run_scan_record_shape _ _ _ _ Hrun Hr)
    as [(Hb & Ht & Hh & He)|[(Hb & Ht & Hh & e & He & _)|(Hb & Ht & Hh & He)]];
    rewrite Hb, Hh, He.
  - split; [tauto|]. split.
    + split; [intros [x Hx]|]; discriminate.
    + intros (_ & [x Hx]). discriminate.
  - rewrite Ht. split; [|split].
    + split; [intros [x Hx]|]; discriminate.
    + split; eauto.
    + intros (Hf & _). discriminate.
  - rewrite Ht. split; [|split].
    + split; [intros [x Hx]|]; discriminate.
    + split; [intros [x Hx]|]; discriminate.
    + intros (Hf & _). discriminate.
Qed.

Lemma record_invariant_witness :
  run_scan init both_env = (true, snd (run_scan init both_env)) /\
  In both_record (installed_apps (snd (run_scan init both_env))) /\
  (is_Some (brew_type both_record) <-> is_brew both_record = true) /\
  (is_Some (brew_equivalent both_record) <->
   has_brew_equivalent both_record = Some true) /\
  ~ (is_brew both_record = true /\ is_Some (brew_equivalent both_record)).
Proof.
  assert (H1 : run_scan init both_env = (true, snd (run_scan init both_env)))
    by (vm_compute; reflexivity).
  assert (H2 : In both_record (installed_apps (snd (run_scan init both_env))))
    by (vm_compute; left; reflexivity).
  split; [exact H1|]. split; [exact H2|].
  exact (record_invariant init both_env _ both_record H1 H2).
Defined.

(** C4. A record of the scan that is not manager-owned and whose key
    passes none of the four tests against any entry of either catalog ends
    with [has_brew_equivalent = False] (not [None]) and no equivalent. *)
Theorem no_match_no_equivalent (self : Scanner) (env : Env) (s' : Scanner) (r : AppInfo) :
  run_scan self env = (true, s') ->
  In r (installed_apps s') ->
  is_brew r = false ->
  (forall e, In e (brew_casks s') \/ In e (brew_formulae s') ->
             ~ Spec.equiv_match (app_key (name r)) e) ->
  has_brew_equivalent r = Some false /\ brew_equivalent r = None.
Proof.
  intros Hrun Hr Hb Hn.
  destruct (run_scan_record_shape _ _ _ _ Hrun Hr)
    as [(Hb' & _)|[(_ & _ & _ & e & _ & Hm & Hin)|(_ & _ & Hh & He)]].
  - congruence.
  - now apply Hn in Hin.
  - now split.
Qed.

Lemma no_match_no_equivalent_witness :
  run_scan init scenario_env = (true, snd (run_scan init scenario_env)) /\
  In random_tool_record (installed_apps (snd (run_scan init scenario_env))) /\
  is_brew random_tool_record = false /\
  (forall e, In e ["visual-studio-code"] \/ In e ["git"; "htop"] ->
             ~ Spec.equiv_match "randomtool" e) /\
  has_brew_equivalent random_tool_record = Some false /\
  brew_equivalent random_tool_record = None.
Proof.
  assert (H1 : run_scan init scenario_env = (true, snd (run_scan init scenario_env)))
    by (vm_compute; reflexivity).
  assert (H2 : In random_tool_record (installed_apps (snd (run_scan init scenario_env))))
    by (vm_compute; right; right; left; reflexivity).
  assert (H3 : is_brew random_tool_record = false) by reflexivity.
  assert (H4 : forall e, In e ["visual-studio-code"] \/ In e ["git"; "htop"] ->
                         ~ Spec.equiv_match "randomtool" e).
  { intros e He. apply equiv_test_false.
    destruct He as [[<-|[]]|[<-|[<-|[]]]]; vm_compute; reflexivity. }
  split; [exact H1|]. split; [exact H2|]. split; [exact H3|]. split; [exact H4|].
  exact (no_match_no_equivalent init scenario_env _ random_tool_record H1 H2 H3 H4).
Defined.

(** C5. Whatever the list of records, the exported [total_apps] is the
    number of owned records plus the number of the others; the exported
    [has_brew_equivalent] is the number of records that are not owned and
    have [has_brew_equivalent = True], and it does not exceed the number
    of records that are not owned. [show_summary] prints the same four
    numbers. *)
Theorem export_counts (self : Scanner) (timestamp : string) :
  let apps := installed_apps self in
  let owned := length (filter (fun a => is_brew a = true) apps) in
  let non_owned := length (filter (fun a => is_brew a = false) apps) in
  let with_equivalent :=
    length (filter (fun a => is_brew a = false /\ has_brew_equivalent a = Some true)
              apps) in
  get "total_apps" (export_data self timestamp) = Some (JInt (owned + non_owned)) /\
  get "brew_managed" (export_data self timestamp) = Some (JInt owned) /\
  get "has_brew_equivalent" (export_data self timestamp) =
    Some (JInt with_equivalent) /\
  with_equivalent <= non_owned /\
  show_summary self = mkSummary (owned + non_owned) owned non_owned with_equivalent.
Proof.
  cbv zeta. repeat split.
  - cbn. now rewrite <- owned_split.
  - cbn. now rewrite export_filter_equiv.
  - rewrite <- summary_filter_equiv. apply length_filter.
  - unfold show_summary. now rewrite summary_filter_equiv, <- owned_split.
Qed.

(** C6. [check_brew_equivalents] turns the list of records into the list
    of their classifications, position by position: the record at
    position [i] of the result is the loop body applied to the record at
    position [i] of the input and to nothing else, so the length, the
    order, the names and the paths are those of the input. The export
    lists one dictionary per record, in the same order, next to the
    counts. *)
Theorem classification_keeps_every_record (self : Scanner) (apps : list AppInfo)
    (timestamp : string) :
  check_brew_equivalents self apps = map (check_app self) apps /\
  (forall i, check_brew_equivalents self apps !! i = check_app self <$> apps !! i) /\
  length (check_brew_equivalents self apps) = length apps /\
  map name (check_brew_equivalents self apps) = map name apps /\
  map path (check_brew_equivalents self apps) = map path apps /\
  get "applications" (export_data self timestamp) =
    Some (JList (map app_dict (installed_apps self))) /\
  keys (export_data self timestamp) =
    ["scan_timestamp"; "total_apps"; "brew_managed"; "has_brew_equivalent";
     "applications"].
Proof.
  rewrite check_brew_equivalents_map. repeat split.
  - intros i. apply list_lookup_fmap.
  - apply length_map.
  - rewrite map_map. apply map_ext. apply check_app_name.
  - rewrite map_map. apply map_ext. apply check_app_path.
Qed.

(** C7, as stated, fails: the bundle named by the bare extension has no
    name, and still it is classified and counted. *)
Lemma nameless_entry_is_classified :
  ~ Spec.malformed_entries_excluded init nameless_env.
Proof.
  intros H.
  destruct (H (snd (run_scan init nameless_env)) nameless_record) as (Hn & _).
  - vm_compute. reflexivity.
  - vm_compute. left. reflexivity.
  - now apply Hn.
Qed.

(** C7, amended. The scan keeps one record, in order, for every raw entry
    whose file name ends in the platform's extension, with the name left
    of the extension whether or not anything is left, and drops the other
    entries. Each record kept is classified like any other: it is created
    by the ownership test of its platform and then goes once through the
    body of [check_brew_equivalents], so that a record that is not owned
    ends with [has_brew_equivalent] at [True] or [False]. [total_apps] is
    the number of entries kept, and the export has no field that counts
    the entries dropped. *)
Theorem every_suffixed_entry_is_counted (self : Scanner) (env : Env) (s' : Scanner)
    (timestamp : string) :
  run_scan self env = (true, s') ->
  let darwin := sys_platform env =? "darwin" in
  let suffix := if darwin then ".app" else ".desktop" in
  let dirs := if darwin then app_dirs env else desktop_dirs env in
  let kept :=
    filter (fun e => endswith (snd e) suffix = true) (Spec.raw_entries env dirs) in
  map ident (installed_apps s') = map (of_entry (String.length suffix)) kept /\
  (exists created,
     installed_apps s' = map (check_app s') created /\
     map ident created = map (of_entry (String.length suffix)) kept /\
     List.Forall
       (fun a => if darwin then created_macos s' a else created_linux s' a)
       created) /\
  (forall r, In r (installed_apps s') -> is_brew r = false ->
     has_brew_equivalent r = Some true \/ has_brew_equivalent r = Some false) /\
  get "total_apps" (export_data s' timestamp) = Some (JInt (length kept)) /\
  keys (export_data s' timestamp) =
    ["scan_timestamp"; "total_apps"; "brew_managed"; "has_brew_equivalent";
     "applications"].
Proof.
  intros Hrun darwin suffix dirs kept.
  assert (C : exists created,
     installed_apps s' = map (check_app s') created /\
     map ident created = map (of_entry (String.length suffix)) kept /\
     List.Forall
       (fun a => if darwin then created_macos s' a else created_linux s' a)
       created).
  { subst kept dirs suffix darwin.
    destruct (run_scan_apps _ _ _ Hrun) as [(Hd & E)|(Hd & _ & E)].
    - apply String.eqb_eq in Hd. rewrite Hd.
      exists (get_applications_macos s' env). split; [exact E|].
      split; [apply macos_entries|]. apply List.Forall_forall. intros a Ha.
      now apply (get_applications_macos_created _ env).
    - apply String.eqb_neq in Hd. rewrite Hd.
      exists (get_applications_linux s' env). split; [exact E|].
      split; [apply linux_entries|]. apply List.Forall_forall. intros a Ha.
      now apply (get_applications_linux_created _ env). }
  assert (E : map ident (installed_apps s') =
              map (of_entry (String.length suffix)) kept).
  { destruct C as (created & -> & <- & _). apply classified_ident. }
  split; [exact E|]. split; [exact C|]. split.
  - intros r Hr Hb.
    destruct (run_scan_record_shape _ _ _ _ Hrun Hr)
      as [(Hb' & _)|[(_ & _ & Hh & _)|(_ & _ & Hh & _)]];
      [congruence|now left|now right].
  - split; [|reflexivity].
    cbn. do 2 f_equal.
    rewrite <- (length_map ident (installed_apps s')), E.
    apply length_map.
Qed.

Lemma every_suffixed_entry_is_counted_witness :
  run_scan init nameless_env = (true, snd (run_scan init nameless_env)) /\
  map ident (installed_apps (snd (run_scan init nameless_env))) =
    [("", "/Applications/.app"); ("Safari", "/Applications/Safari.app")] /\
  (has_brew_equivalent nameless_record = Some true \/
   has_brew_equivalent nameless_record = Some false) /\
  get "total_apps"
    (export_data (snd (run_scan init nameless_env)) "2024-01-01 00:00:00") =
    Some (JInt 2).
Proof.
  assert (H1 : run_scan init nameless_env = (true, snd (run_scan init nameless_env)))
    by (vm_compute; reflexivity).
  split; [exact H1|].
  destruct (every_suffixed_entry_is_counted init nameless_env _
              "2024-01-01 00:00:00" H1) as (Hm & _ & Hc & Ht & _).
  split; [|split].
  - rewrite Hm. vm_compute. reflexivity.
  - apply Hc; [vm_compute; left; reflexivity|reflexivity].
  - rewrite Ht. vm_compute. reflexivity.
Defined.

(** C8. The key [name.lower().replace(' ', '-')] is a function of the raw
    name alone, computing the key of a key changes nothing, and so a string
    that already is a key is its own key. *)
Theorem app_key_deterministic_idempotent :
  (forall n, app_key (app_key n) = app_key n) /\
  (forall n m, n = m -> app_key n = app_key m) /\
  (forall k, (exists n, k = app_key n) -> app_key k = k).
Proof.
  split; [exact app_key_idem|]. split; [now intros n m ->|].
  intros k [n ->]. apply app_key_idem.
Qed.

Lemma app_key_deterministic_idempotent_witness :
  app_key "Visual Studio Code" = "visual-studio-code" /\
  app_key (app_key "Visual Studio Code") = app_key "Visual Studio Code" /\
  app_key "visual-studio-code" = "visual-studio-code".
Proof.
  split; [reflexivity|]. split.
  - exact (proj1 app_key_deterministic_idempotent "Visual Studio Code").
  - apply (proj2 (proj2 app_key_deterministic_idempotent)).
    exists "Visual Studio Code". reflexivity.
Defined.

(** C9. Whenever a record of the scan carries an equivalent, that name is
    an element of the cask catalog or of the formula catalog as fetched,
    in the catalog's own spelling. *)
Theorem equivalent_from_catalog (self : Scanner) (env : Env) (s' : Scanner)
    (r : AppInfo) (e : string) :
  run_scan self env = (true, s') ->
  In r (installed_apps s') ->
  brew_equivalent r = Some e ->
  (In e (default [] (brew_list_cask env)) \/
   In e (default [] (brew_list_formula env))) /\
  (In e (brew_casks s') \/ In e (brew_formulae s')).
Proof.
  intros Hrun Hr He.
  destruct (run_scan_catalogs _ _ _ Hrun) as (Ef & Ec). rewrite Ef, <- Ec. simpl.
  assert (H : In e (brew_casks s') \/ In e (brew_formulae s')); [|now split].
  destruct (run_scan_record_shape _ _ _ _ Hrun Hr)
    as [(_ & _ & _ & He')|[(_ & _ & _ & e' & He' & _ & Hin)|(_ & _ & _ & He')]];
    congruence.
Qed.

Lemma equivalent_from_catalog_witness :
  run_scan init both_env = (true, snd (run_scan init both_env)) /\
  In both_record (installed_apps (snd (run_scan init both_env))) /\
  brew_equivalent both_record = Some "visual-studio-code" /\
  (In "visual-studio-code" (default [] (brew_list_cask both_env)) \/
   In "visual-studio-code" (default [] (brew_list_formula both_env))).
Proof.
  assert (H1 : run_scan init both_env = (true, snd (run_scan init both_env)))
    by (vm_compute; reflexivity).
  assert (H2 : In both_record (installed_apps (snd (run_scan init both_env))))
    by (vm_compute; left; reflexivity).
  assert (H3 : brew_equivalent both_record = Some "visual-studio-code") by reflexivity.
  split; [exact H1|]. split; [exact H2|]. split; [exact H3|].
  exact (proj1 (equivalent_from_catalog init both_env _ both_record _ H1 H2 H3)).
Defined.

(** C10. A record of the scan that is not manager-owned and whose name
    gives the empty key gets an equivalent as soon as one catalog is not
    empty: the empty key is contained in every catalog name, so the first
    cask is taken, or the first formula when there is no cask. *)
Theorem empty_key_matches_first_entry (self : Scanner) (env : Env) (s' : Scanner)
    (r : AppInfo) :
  run_scan self env = (true, s') ->
  In r (installed_apps s') ->
  is_brew r = false ->
  app_key (name r) = "" ->
  brew_casks s' <> [] \/ brew_formulae s' <> [] ->
  has_brew_equivalent r = Some true /\
  (exists e, brew_equivalent r = Some e /\
             (In e (brew_casks s') \/ In e (brew_formulae s'))) /\
  brew_equivalent r = head (brew_casks s' ++ brew_formulae s')%list.
Proof.
  intros Hrun Hr Hb Hk Hne.
  destruct (run_scan_non_owned _ _ _ _ Hrun Hr Hb) as (a & -> & Ha & Hf & En).
  rewrite <- En in Hk.
  assert (Hall : forall e, Spec.equiv_match (app_key (name a)) e).
  { intros e. rewrite Hk. right. right. left. exists "", (lower e). reflexivity. }
  destruct (brew_casks s') as [|c cs] eqn:Ec.
  - destruct (brew_formulae s') as [|f fs] eqn:Ef; [destruct Hne; congruence|].
    rewrite (check_app_formula s' a f Ha).
    + simpl. repeat split. exists f. split; [reflexivity|]. right. now left.
    + destruct Hf as (Hh & _). now rewrite Hh.
    + rewrite Ec. intros ? [].
    + rewrite Ef. apply first_match_here, Hall.
  - rewrite (check_app_cask s' a c Ha).
    + simpl. repeat split. exists c. split; [reflexivity|]. left. now left.
    + rewrite Ec. apply first_match_here, Hall.
Qed.

Lemma empty_key_matches_first_entry_witness :
  run_scan init nameless_env = (true, snd (run_scan init nameless_env)) /\
  In nameless_record (installed_apps (snd (run_scan init nameless_env))) /\
  is_brew nameless_record = false /\
  app_key (name nameless_record) = "" /\
  has_brew_equivalent nameless_record = Some true /\
  brew_equivalent nameless_record = Some "firefox".
Proof.
  assert (H1 : run_scan init nameless_env = (true, snd (run_scan init nameless_env)))
    by (vm_compute; reflexivity).
  assert (H2 : In nameless_record (installed_apps (snd (run_scan init nameless_env))))
    by (vm_compute; left; reflexivity).
  assert (H3 : is_brew nameless_record = false) by reflexivity.
  assert (H4 : app_key (name nameless_record) = "") by reflexivity.
  assert (H5 : brew_casks (snd (run_scan init nameless_env)) <> [] \/
               brew_formulae (snd (run_scan init nameless_env)) <> [])
    by (left; vm_compute; discriminate).
  split; [exact H1|]. split; [exact H2|]. split; [exact H3|]. split; [exact H4|].
  destruct (empty_key_matches_first_entry init nameless_env _ nameless_record
              H1 H2 H3 H4 H5) as (Hh & _ & He).
  split; [exact Hh|exact He].
Defined.

(** ** Beyond the claims: the scan as a whole *)

(** A scan that fails keeps the records it found installed. *)
Lemma run_scan_failure_keeps_apps (self : Scanner) (env : Env) :
  fst (run_scan self env) = false ->
  installed_apps (snd (run_scan self env)) = installed_apps self.
Proof.
  unfold run_scan, get_brew_packages.
  destruct (brew_list_formula env) as [formulae|]; [|reflexivity].
  destruct (sys_platform env =? "darwin"); [discriminate|].
  destruct (startswith (sys_platform env) "linux"); [discriminate|reflexivity].
Qed.

(** X2. When [brew list --cask] fails the scan still runs, with an empty
    cask catalog: no bundle found on macOS is classified as owned, and
    every equivalent that is suggested is a formula. *)
Theorem scan_without_casks (self : Scanner) (env : Env) (s' : Scanner) (r : AppInfo) :
  brew_list_cask env = None ->
  run_scan self env = (true, s') ->
  In r (installed_apps s') ->
  brew_casks s' = [] /\
  (sys_platform env = "darwin" -> is_brew r = false /\ brew_type r = None) /\
  (forall e, brew_equivalent r = Some e -> In e (brew_formulae s')).
Proof.
  intros Hc Hrun Hr.
  destruct (run_scan_catalogs _ _ _ Hrun) as (_ & Ec). rewrite Hc in Ec. simpl in Ec.
  split; [exact Ec|]. split.
  - intros Hd. destruct (run_scan_record _ _ _ Hrun r Hr) as (a & -> & Ha).
    destruct Ha as [(_ & _ & Hb & Ht)|(Hn & _)]; [|contradiction].
    rewrite Ec in Hb. simpl in Hb. rewrite Hb in Ht.
    rewrite check_app_is_brew. split; [exact Hb|].
    unfold check_app. rewrite Hb, Ec. simpl.
    destruct (truthy (has_brew_equivalent a)) eqn:Hh; simpl; [now rewrite Hh|].
    destruct (search_loop_cases (app_key (name a)) (brew_formulae s') a)
      as [(f & _ & ->)|(_ & ->)]; simpl; [exact Ht|]. now rewrite Hh.
  - intros e He.
    destruct (run_scan_record_shape _ _ _ _ Hrun Hr)
      as [(_ & _ & _ & He')|[(_ & _ & _ & e' & He' & _ & Hin)|(_ & _ & _ & He')]];
      try congruence.
    rewrite Ec in Hin. destruct Hin as [[]|Hin]. congruence.
Qed.

Lemma scan_without_casks_witness :
  brew_list_cask linux_env = None /\
  run_scan init linux_env = (true, snd (run_scan init linux_env)) /\
  In linux_near_record (installed_apps (snd (run_scan init linux_env))) /\
  brew_casks (snd (run_scan init linux_env)) = [] /\
  In "git-lfs" (brew_formulae (snd (run_scan init linux_env))).
Proof.
  assert (H0 : brew_list_cask linux_env = None) by reflexivity.
  assert (H1 : run_scan init linux_env = (true, snd (run_scan init linux_env)))
    by (vm_compute; reflexivity).
  assert (H2 : In linux_near_record (installed_apps (snd (run_scan init linux_env))))
    by (vm_compute; left; reflexivity).
  split; [exact H0|]. split; [exact H1|]. split; [exact H2|].
  destruct (scan_without_casks init linux_env _ linux_near_record H0 H1 H2)
    as (Hc & _ & He).
  split; [exact Hc|]. apply He. reflexivity.
Defined.

(** Checking a record that has been checked changes nothing more. *)
Lemma check_app_idem (self : Scanner) (a : AppInfo) :
  check_app self (check_app self a) = check_app self a.
Proof.
  destruct (is_brew a) eqn:Hb.
  - now rewrite !(check_app_owned self a Hb).
  - destruct (search_loop_cases (app_key (name a)) (brew_casks self) a)
      as [(c & Hc & _)|(Hc & Ec)].
    + rewrite (check_app_cask self a c Hb Hc).
      now rewrite (check_app_cask self (set_equivalent a c) c Hb Hc).
    + destruct (truthy (has_brew_equivalent a)) eqn:Hh.
      * assert (E : check_app self a = a).
        { unfold check_app. rewrite Hb. simpl. rewrite Ec, Hh. simpl. now rewrite Hh. }
        now rewrite !E.
      * destruct (search_loop_cases (app_key (name a)) (brew_formulae self) a)
          as [(f & Hf & _)|(Hf & _)].
        -- rewrite (check_app_formula self a f Hb Hh Hc Hf).
           unfold check_app. simpl. rewrite Hb. simpl.
           now rewrite (search_loop_none _ _ _ Hc).
        -- rewrite (check_app_none self a Hb Hh Hc Hf).
           now rewrite (check_app_none self (set_no_equivalent a) Hb eq_refl Hc Hf).
Qed.

(** X3. [check_brew_equivalents] is idempotent on every list of records,
    fresh or not: running it again on its result changes nothing. *)
Theorem check_brew_equivalents_idempotent (self : Scanner) (apps : list AppInfo) :
  check_brew_equivalents self (check_brew_equivalents self apps) =
  check_brew_equivalents self apps.
Proof.
  rewrite !check_brew_equivalents_map, map_map. apply map_ext.
  intros a. apply check_app_idem.
Qed.

Lemma check_app_frame (self : Scanner) (a : AppInfo) :
  brew_type (check_app self a) = brew_type a /\
  description (check_app self a) = description a /\
  (is_brew a = false ->
   has_brew_equivalent (check_app self a) = Some true \/
   has_brew_equivalent (check_app self a) = Some false).
Proof.
  unfold check_app. destruct (is_brew a); simpl.
  { split; [reflexivity|]. split; [reflexivity|discriminate]. }
  destruct (search_loop_cases (app_key (name a)) (brew_casks self) a)
    as [(c & _ & ->)|(_ & ->)]; simpl.
  { split; [reflexivity|]. split; [reflexivity|]. now left. }
  destruct (truthy (has_brew_equivalent a)) eqn:Hh; simpl.
  - rewrite Hh. split; [reflexivity|]. split; [reflexivity|]. intros _. left.
    simpl. now destruct (has_brew_equivalent a) as [[]|].
  - destruct (search_loop_cases (app_key (name a)) (brew_formulae self) a)
      as [(f & _ & ->)|(_ & ->)]; simpl.
    + split; [reflexivity|]. split; [reflexivity|]. now left.
    + rewrite Hh. split; [reflexivity|]. split; [reflexivity|]. now right.
Qed.

(** X4. Whatever records it is given, [check_brew_equivalents] writes the
    two equivalence fields and nothing else: position by position the
    name, path, [is_brew], [brew_type] and description are kept, an owned
    record is left exactly as it was, and a record that is not owned ends
    with [has_brew_equivalent] equal to [True] or [False], never [None]. *)
Theorem check_brew_equivalents_frame (self : Scanner) (apps : list AppInfo) :
  Forall2 (fun a b =>
      name b = name a /\ path b = path a /\ is_brew b = is_brew a /\
      brew_type b = brew_type a /\ description b = description a /\
      (is_brew a = true -> b = a) /\
      (is_brew a = false ->
       has_brew_equivalent b = Some true \/ has_brew_equivalent b = Some false))
    apps (check_brew_equivalents self apps).
Proof.
  rewrite check_brew_equivalents_map.
  induction apps as [|a apps IH]; constructor; [|exact IH].
  destruct (check_app_frame self a) as (Ht & Hd & Hh).
  repeat split; auto using check_app_name, check_app_path, check_app_is_brew,
    check_app_owned.
Qed.

Lemma existsb_Permutation {A} (f : A -> bool) (l l' : list A) :
  Permutation l l' -> existsb f l = existsb f l'.
Proof.
  induction 1 as [|x l l' _ IH|x y l|l l' l'' _ IH1 _ IH2]; simpl.
  - reflexivity.
  - now rewrite IH.
  - now destruct (f x), (f y).
  - now rewrite IH1.
Qed.

Lemma scan_dirs_ext (per1 per2 : string -> string -> list AppInfo) (env1 env2 : Env)
    (dirs : list string) :
  (forall d, listdir env1 d = listdir env2 d) ->
  (forall d i, per1 d i = per2 d i) ->
  scan_dirs per1 env1 dirs = scan_dirs per2 env2 dirs.
Proof.
  intros Hl Hp. unfold scan_dirs. apply flat_map_ext. intros d.
  rewrite Hl. destruct (listdir env2 d); [|reflexivity].
  apply flat_map_ext. apply Hp.
Qed.

(** Whether a fresh record finds an equivalent does not depend on the
    order of the catalogs. *)
Lemma check_app_Permutation (s1 s2 : Scanner) (a : AppInfo) :
  Permutation (brew_casks s1) (brew_casks s2) ->
  Permutation (brew_formulae s1) (brew_formulae s2) ->
  fresh a ->
  has_brew_equivalent (check_app s1 a) = has_brew_equivalent (check_app s2 a).
Proof.
  intros Pc Pf Hf. destruct (is_brew a) eqn:Hb.
  - now rewrite !check_app_owned.
  - destruct (check_app_fresh_cases s1 a Hb Hf)
      as [(c & Hc & ->)|[(Hn & f & Hm & ->)|(Hn & Hn' & ->)]];
    destruct (check_app_fresh_cases s2 a Hb Hf)
      as [(c' & Hc' & ->)|[(Hk & f' & Hm' & ->)|(Hk & Hk' & ->)]];
    try reflexivity; exfalso.
    + apply first_match_In in Hc as (Hin & Hc).
      apply (Hk c); [now apply (Permutation_in _ Pc)|assumption].
    + apply first_match_In in Hm as (Hin & Hm).
      apply (Hk' f); [now apply (Permutation_in _ Pf)|assumption].
    + apply first_match_In in Hc' as (Hin & Hc).
      apply (Hn c'); [now apply (Permutation_in _ (Permutation_sym Pc))|assumption].
    + apply first_match_In in Hm' as (Hin & Hm).
      apply (Hn' f'); [now apply (Permutation_in _ (Permutation_sym Pf))|assumption].
Qed.

Lemma Forall2_filter_length {A} (R : A -> A -> Prop) (P : A -> Prop)
    `{!forall x, Decision (P x)} (l1 l2 : list A) :
  Forall2 R l1 l2 ->
  (forall a b, R a b -> (P a <-> P b)) ->
  length (filter P l1) = length (filter P l2).
Proof.
  intros HF HR. induction HF as [|a b l1 l2 Hab _ IH]; [reflexivity|].
  rewrite !filter_cons. destruct (decide (P a)) as [Ha|Ha].
  - rewrite decide_True by now apply (HR a b Hab). simpl. now rewrite IH.
  - rewrite decide_False by (intros Hb; now apply Ha, (HR a b Hab)). exact IH.
Qed.

(** X5. The iteration order of the two catalogs decides only which name
    is suggested when several entries match: two scans of the same machine
    whose catalogs hold the same names in another order give, record by
    record, the same name, path, ownership, [brew_type] and
    [has_brew_equivalent], hence the same summary. *)
Theorem catalog_order_keeps_the_verdicts (self1 self2 : Scanner) (env1 env2 : Env)
    (s1 s2 : Scanner) :
  sys_platform env1 = sys_platform env2 ->
  home env1 = home env2 ->
  (forall d, listdir env1 d = listdir env2 d) ->
  Permutation (default [] (brew_list_formula env1)) (default [] (brew_list_formula env2)) ->
  Permutation (default [] (brew_list_cask env1)) (default [] (brew_list_cask env2)) ->
  run_scan self1 env1 = (true, s1) ->
  run_scan self2 env2 = (true, s2) ->
  Forall2 (fun r1 r2 =>
      name r1 = name r2 /\ path r1 = path r2 /\ is_brew r1 = is_brew r2 /\
      brew_type r1 = brew_type r2 /\
      has_brew_equivalent r1 = has_brew_equivalent r2)
    (installed_apps s1) (installed_apps s2) /\
  show_summary s1 = show_summary s2.
Proof.
  intros Hp Hh Hl Pf Pc Hr1 Hr2.
  destruct (run_scan_catalogs _ _ _ Hr1) as (Ef1 & Ec1).
  destruct (run_scan_catalogs _ _ _ Hr2) as (Ef2 & Ec2).
  rewrite Ef1, Ef2 in Pf. simpl in Pf. rewrite <- Ec1, <- Ec2 in Pc.
  assert (HF : Forall2 (fun r1 r2 =>
      name r1 = name r2 /\ path r1 = path r2 /\ is_brew r1 = is_brew r2 /\
      brew_type r1 = brew_type r2 /\
      has_brew_equivalent r1 = has_brew_equivalent r2)
    (installed_apps s1) (installed_apps s2)).
  { assert (Hd : exists apps,
        installed_apps s1 = map (check_app s1) apps /\
        installed_apps s2 = map (check_app s2) apps /\
        Forall fresh apps).
    { destruct (run_scan_apps _ _ _ Hr1) as [(Hd1 & E1)|(Hd1 & _ & E1)];
      destruct (run_scan_apps _ _ _ Hr2) as [(Hd2 & E2)|(Hd2 & _ & E2)];
        try congruence.
      - exists (get_applications_macos s2 env2). split; [|split; [exact E2|]].
        + rewrite E1. f_equal. unfold get_applications_macos, app_dirs.
          rewrite Hh. apply scan_dirs_ext; [exact Hl|]. intros d i.
          unfold macos_item. now rewrite (existsb_Permutation _ _ _ Pc).
        + apply List.Forall_forall. intros a Ha.
          now apply get_applications_macos_created in Ha as (Hf & _).
      - exists (get_applications_linux s2 env2). split; [|split; [exact E2|]].
        + rewrite E1. f_equal. unfold get_applications_linux, desktop_dirs.
          rewrite Hh. apply scan_dirs_ext; [exact Hl|]. intros d i.
          unfold linux_item.
          now rewrite (existsb_Permutation _ _ _ (Permutation_map lower Pf)).
        + apply List.Forall_forall. intros a Ha.
          now apply get_applications_linux_created in Ha as (Hf & _). }
    destruct Hd as (apps & -> & -> & Hfresh).
    induction Hfresh as [|a apps Ha _ IH]; constructor; [|exact IH].
    rewrite !check_app_name, !check_app_path, !check_app_is_brew.
    destruct (check_app_frame s1 a) as (-> & _).
    destruct (check_app_frame s2 a) as (-> & _).
    repeat split. now apply check_app_Permutation. }
  split; [exact HF|]. unfold show_summary.
  rewrite !summary_filter_equiv.
  rewrite (Forall2_length _ _ _ HF).
  rewrite (Forall2_filter_length _ (fun a => is_brew a = true) _ _ HF)
    by (intros a b (_ & _ & -> & _); tauto).
  rewrite (Forall2_filter_length _ (fun a => is_brew a = false) _ _ HF)
    by (intros a b (_ & _ & -> & _); tauto).
  rewrite (Forall2_filter_length _
             (fun a => is_brew a = false /\ has_brew_equivalent a = Some true) _ _ HF)
    by (intros a b (_ & _ & -> & _ & ->); tauto).
  reflexivity.
Qed.

Lemma catalog_order_keeps_the_verdicts_witness :
  Permutation ["git"; "htop"] ["htop"; "git"] /\
  run_scan init scenario_env = (true, snd (run_scan init scenario_env)) /\
  run_scan init scenario_env_reordered =
    (true, snd (run_scan init scenario_env_reordered)) /\
  show_summary (snd (run_scan init scenario_env)) =
  show_summary (snd (run_scan init scenario_env_reordered)).
Proof.
  assert (P : Permutation ["git"; "htop"] ["htop"; "git"]) by apply perm_swap.
  assert (H1 : run_scan init scenario_env = (true, snd (run_scan init scenario_env)))
    by (vm_compute; reflexivity).
  assert (H2 : run_scan init scenario_env_reordered =
               (true, snd (run_scan init scenario_env_reordered)))
    by (vm_compute; reflexivity).
  split; [exact P|]. split; [exact H1|]. split; [exact H2|].
  apply (catalog_order_keeps_the_verdicts init init scenario_env
           scenario_env_reordered _ _ eq_refl eq_refl (fun d => eq_refl) P
           (Permutation_refl _) H1 H2).
Defined.

Lemma substring_all (s : string) : String.substring 0 (String.length s) s = s.
Proof. induction s as [|c s IH]; simpl; [reflexivity|now rewrite IH]. Qed.

Lemma substring_cut (s : string) (m : nat) :
  m <= String.length s ->
  String.substring 0 m s ++ String.substring m (String.length s - m) s = s.
Proof.
  revert m. induction s as [|c s IH]; intros [|m] Hm; simpl in *; try lia.
  - reflexivity.
  - now rewrite substring_all.
  - rewrite IH by lia. reflexivity.
Qed.

(** A name that ends with a suffix is what is left of it, then the suffix. *)
Lemma endswith_drop_last (s suffix : string) :
  endswith s suffix = true ->
  s = drop_last (String.length suffix) s ++ suffix.
Proof.
  unfold endswith, drop_last. intros H.
  apply andb_true_iff in H as (Hk & Hs).
  apply Nat.leb_le in Hk. apply String.eqb_eq in Hs.
  pose proof (substring_cut s (String.length s - String.length suffix)) as E.
  replace (String.length s - (String.length s - String.length suffix))
    with (String.length suffix) in E by lia.
  rewrite Hs in E. symmetry. apply E. lia.
Qed.

Lemma raw_entries_In (env : Env) (dirs : list string) (d item : string) :
  In (d, item) (Spec.raw_entries env dirs) ->
  In d dirs /\ exists items, listdir env d = Some items /\ In item items.
Proof.
  unfold Spec.raw_entries. rewrite in_flat_map. intros (d' & Hd & Hi).
  destruct (listdir env d') as [items|] eqn:E; [|destruct Hi].
  apply in_map_iff in Hi as (i & [= <- <-] & Hi). split; [assumption|].
  now exists items.
Qed.

(** The names and paths of a scan, read off the raw entries. *)
Lemma run_scan_idents (self : Scanner) (env : Env) (s' : Scanner) :
  run_scan self env = (true, s') ->
  map ident (installed_apps s') =
  map (of_entry
         (String.length (if sys_platform env =? "darwin" then ".app" else ".desktop")))
    (filter
       (fun e => endswith (snd e)
                   (if sys_platform env =? "darwin" then ".app" else ".desktop") = true)
       (Spec.raw_entries env
          (if sys_platform env =? "darwin" then app_dirs env else desktop_dirs env))).
Proof.
  intros Hrun.
  destruct (run_scan_apps _ _ _ Hrun) as [(Hd & ->)|(Hd & _ & ->)].
  - apply String.eqb_eq in Hd. rewrite Hd.
    rewrite (classified_ident s'). apply macos_entries.
  - apply String.eqb_neq in Hd. rewrite Hd.
    rewrite (classified_ident s'). apply linux_entries.
Qed.

(** X6. Every record of a scan points back to the directory entry it was
    made from: its name followed by the platform's extension is an item
    of one of the directories scanned, and its path is that directory
    joined with that item. *)
Theorem record_points_to_its_entry (self : Scanner) (env : Env) (s' : Scanner)
    (r : AppInfo) :
  run_scan self env = (true, s') ->
  In r (installed_apps s') ->
  let darwin := sys_platform env =? "darwin" in
  let suffix := if darwin then ".app" else ".desktop" in
  let dirs := if darwin then app_dirs env else desktop_dirs env in
  exists d items,
    In d dirs /\ listdir env d = Some items /\
    In (name r ++ suffix) items /\
    path r = path_join d (name r ++ suffix).
Proof.
  intros Hrun Hr darwin suffix dirs.
  pose proof (run_scan_idents _ _ _ Hrun) as E. fold darwin suffix dirs in E.
  apply (in_map ident) in Hr. rewrite E in Hr.
  apply in_map_iff in Hr as ((d & item) & Hi & He).
  apply list_elem_of_In, list_elem_of_filter in He as (Hs & He).
  apply list_elem_of_In, raw_entries_In in He as (Hd & items & Hl & Hin).
  simpl in Hs. unfold of_entry, ident in Hi. simpl in Hi.
  injection Hi as Hn Hp.
  assert (Hitem : item = name r ++ suffix)
    by (rewrite <- Hn; now apply endswith_drop_last).
  exists d, items. rewrite <- Hitem. now repeat split.
Qed.

Lemma record_points_to_its_entry_witness :
  run_scan init both_env = (true, snd (run_scan init both_env)) /\
  In both_record (installed_apps (snd (run_scan init both_env))) /\
  exists d items,
    In d (app_dirs both_env) /\ listdir both_env d = Some items /\
    In "Code.app" items /\ path both_record = path_join d "Code.app".
Proof.
  assert (H1 : run_scan init both_env = (true, snd (run_scan init both_env)))
    by (vm_compute; reflexivity).
  assert (H2 : In both_record (installed_apps (snd (run_scan init both_env))))
    by (vm_compute; left; reflexivity).
  split; [exact H1|]. split; [exact H2|].
  exact (record_points_to_its_entry init both_env _ both_record H1 H2).
Defined.

Lemma filter_map_length {A B} (f : A -> B) (P : B -> Prop)
    `{!forall x, Decision (P x)} (l : list A) :
  length (filter P (map f l)) = length (filter (fun a => P (f a)) l).
Proof.
  induction l as [|a l IH]; [reflexivity|]. cbn [map].
  rewrite !filter_cons. destruct (decide (P (f a))); simpl; now rewrite IH.
Qed.

(** X7. The exported counts can be recomputed from the exported list:
    [total_apps] is the length of [applications], [brew_managed] the number
    of its dictionaries whose [is_brew] is true, and [has_brew_equivalent]
    the number of those whose [is_brew] is false and whose
    [has_brew_equivalent] is true. *)
Theorem export_counts_match_applications (self : Scanner) (timestamp : string) :
  exists applications,
    get "applications" (export_data self timestamp) = Some (JList applications) /\
    get "total_apps" (export_data self timestamp) =
      Some (JInt (length applications)) /\
    get "brew_managed" (export_data self timestamp) =
      Some (JInt (length (filter
        (fun d => holds_bool true (get "is_brew" d) = true) applications))) /\
    get "has_brew_equivalent" (export_data self timestamp) =
      Some (JInt (length (filter
        (fun d => holds_bool false (get "is_brew" d) &&
                  holds_bool true (get "has_brew_equivalent" d) = true)
        applications))).
Proof.
  exists (map app_dict (installed_apps self)).
  split; [reflexivity|]. split; [cbn; now rewrite length_map|].
  rewrite !filter_map_length. split; cbn; do 2 f_equal; f_equal.
  - apply list_filter_iff. intros a. simpl. now destruct (is_brew a).
  - apply list_filter_iff. intros a. simpl.
    now destruct (is_brew a), (has_brew_equivalent a) as [[]|].
Qed.

Lemma filter_none {A} (P : A -> Prop) `{!forall x, Decision (P x)} (l : list A) :
  (forall x, In x l -> ~ P x) -> filter P l = [].
Proof.
  induction l as [|a l IH]; intros Hn; [reflexivity|].
  rewrite filter_cons_False by (apply Hn; now left).
  apply IH. intros x Hx. apply Hn. now right.
Qed.

(** X8. A scan that succeeds on a machine where no directory entry has
    the platform's extension finds nothing, and then nothing can be
    exported: [export_to_json] takes its "no scan data" branch and the
    summary is all zeros. *)
Theorem empty_scan_is_not_exported (self : Scanner) (env : Env) (s' : Scanner)
    (timestamp : string) :
  run_scan self env = (true, s') ->
  (forall d item,
     In (d, item)
       (Spec.raw_entries env
          (if sys_platform env =? "darwin" then app_dirs env else desktop_dirs env)) ->
     endswith item (if sys_platform env =? "darwin" then ".app" else ".desktop")
       = false) ->
  installed_apps s' = [] /\
  export_to_json s' timestamp = None /\
  show_summary s' = mkSummary 0 0 0 0.
Proof.
  intros Hrun Hnone.
  assert (E : installed_apps s' = []).
  { apply (map_eq_nil ident). rewrite (run_scan_idents _ _ _ Hrun).
    match goal with |- map _ ?l = [] => replace l with (@nil (string * string)) end;
      [reflexivity|].
    symmetry. apply filter_none.
    intros (d & item) Hin. simpl. rewrite (Hnone d item Hin). discriminate. }
  unfold export_to_json, show_summary. rewrite E. repeat split.
Qed.

Lemma empty_scan_is_not_exported_witness :
  run_scan init bare_env = (true, snd (run_scan init bare_env)) /\
  installed_apps (snd (run_scan init bare_env)) = [] /\
  export_to_json (snd (run_scan init bare_env)) "2024-01-01 00:00:00" = None.
Proof.
  assert (H1 : run_scan init bare_env = (true, snd (run_scan init bare_env)))
    by (vm_compute; reflexivity).
  split; [exact H1|].
  destruct (empty_scan_is_not_exported init bare_env _ "2024-01-01 00:00:00" H1)
    as (Ha & He & _).
  - intros d item Hin. vm_compute in Hin. destruct Hin.
  - split; [exact Ha|exact He].
Defined.

(** X9. An empty name in a catalog, as a blank line inside the output of
    [brew list] leaves one, matches every key: every record of the scan
    that is not owned then gets an equivalent. *)
Theorem empty_entry_matches_every_app (self : Scanner) (env : Env) (s' : Scanner)
    (r : AppInfo) :
  run_scan self env = (true, s') ->
  In r (installed_apps s') ->
  is_brew r = false ->
  In "" (brew_casks s') \/ In "" (brew_formulae s') ->
  has_brew_equivalent r = Some true /\ is_Some (brew_equivalent r).
Proof.
  intros Hrun Hr Hb Hin.
  destruct (run_scan_non_owned _ _ _ _ Hrun Hr Hb) as (a & -> & Ha & Hf & En).
  assert (Hm : Spec.equiv_match (app_key (name a)) "").
  { right. right. right. exists "", (app_key (name a)). reflexivity. }
  destruct (check_app_fresh_cases s' a Ha Hf)
    as [(c & _ & ->)|[(_ & f & _ & ->)|(Hc & Hf' & _)]]; simpl; eauto.
  exfalso. destruct Hin as [Hin|Hin]; [now apply (Hc "")|now apply (Hf' "")].
Qed.

Lemma empty_entry_matches_every_app_witness :
  run_scan init blank_line_env = (true, snd (run_scan init blank_line_env)) /\
  In blank_line_record (installed_apps (snd (run_scan init blank_line_env))) /\
  is_brew blank_line_record = false /\
  In "" (brew_formulae (snd (run_scan init blank_line_env))) /\
  has_brew_equivalent blank_line_record = Some true.
Proof.
  assert (H1 : run_scan init blank_line_env = (true, snd (run_scan init blank_line_env)))
    by (vm_compute; reflexivity).
  assert (H2 : In blank_line_record
                 (installed_apps (snd (run_scan init blank_line_env))))
    by (vm_compute; left; reflexivity).
  assert (H3 : is_brew blank_line_record = false) by reflexivity.
  assert (H4 : In "" (brew_formulae (snd (run_scan init blank_line_env))))
    by (vm_compute; right; left; reflexivity).
  split; [exact H1|]. split; [exact H2|]. split; [exact H3|]. split; [exact H4|].
  exact (proj1 (empty_entry_matches_every_app init blank_line_env _
                  blank_line_record H1 H2 H3 (or_intror H4))).
Defined.

(** ** Beyond the claims: the arrow-key menu and the browser *)

Section Menu.

Import Keyboard Interactive.

Local Open Scope Z_scope.

Example display_menu_ex :
  display_menu ["a"; "b"; "c"]
    [press "up"; release "up"; press "x"; press "enter"; press "esc"] 0 =
  Chosen 2 2 [press "esc"].
Proof. reflexivity. Qed.

Example display_menu_empty_ex :
  display_menu [] [press "down"] 0 = MenuRaised "ZeroDivisionError".
Proof. reflexivity. Qed.

Lemma display_menu_inv (options : list string) (events : list KeyboardEvent)
    (sel : Z) :
  options <> [] ->
  0 <= sel < Z.of_nat (length options) ->
  match display_menu options events sel with
  | Chosen choice sel' rest =>
      (choice = -1 \/ choice = sel') /\
      0 <= sel' < Z.of_nat (length options) /\
      (length rest < length events)%nat
  | AwaitingKey sel' => 0 <= sel' < Z.of_nat (length options)
  | MenuRaised _ => False
  end.
Proof.
  intros Hne. revert sel. induction events as [|key rest IH]; intros sel Hsel.
  - exact Hsel.
  - assert (Hpos : 0 < Z.of_nat (length options))
      by (destruct options; [contradiction|simpl; lia]).
    assert (Hstep : forall sel',
      0 <= sel' < Z.of_nat (length options) ->
      match display_menu options rest sel' with
      | Chosen choice sel'' rest' =>
          (choice = -1 \/ choice = sel'') /\
          0 <= sel'' < Z.of_nat (length options) /\
          (length rest' < length (key :: rest))%nat
      | AwaitingKey sel'' => 0 <= sel'' < Z.of_nat (length options)
      | MenuRaised _ => False
      end).
    { intros sel' Hs. specialize (IH sel' Hs).
      destruct (display_menu options rest sel'); simpl; intuition lia. }
    cbn [display_menu].
    destruct (event_type key =? KEY_DOWN)%string; [|now apply Hstep].
    destruct (name key =? "up")%string.
    { destruct options; [contradiction|]. apply Hstep. now apply Z.mod_pos_bound. }
    destruct (name key =? "down")%string.
    { destruct options; [contradiction|]. apply Hstep. now apply Z.mod_pos_bound. }
    destruct (name key =? "enter")%string; [simpl; intuition lia|].
    destruct (name key =? "esc")%string; [simpl; intuition lia|].
    now apply Hstep.
Qed.

(** X10. On a menu that has options, and from a selection inside it,
    [display_menu] never divides by zero; what it returns is -1 (escape)
    or the selection, and the selection is always the index of an option. *)
Theorem display_menu_in_range (options : list string) (events : list KeyboardEvent)
    (current_selection : Z) :
  options <> [] ->
  0 <= current_selection < Z.of_nat (length options) ->
  match display_menu options events current_selection with
  | Chosen choice selection _ =>
      (choice = -1 \/ (choice = selection /\ 0 <= choice < Z.of_nat (length options))) /\
      0 <= selection < Z.of_nat (length options)
  | AwaitingKey selection => 0 <= selection < Z.of_nat (length options)
  | MenuRaised _ => False
  end.
Proof.
  intros Hne Hsel. pose proof (display_menu_inv options events _ Hne Hsel) as H.
  destruct (display_menu options events current_selection); intuition lia.
Qed.

Lemma display_menu_in_range_witness :
  ["a"; "b"; "c"] <> [] /\
  0 <= 0 < Z.of_nat (length ["a"; "b"; "c"]) /\
  display_menu ["a"; "b"; "c"] [press "up"; press "enter"] 0 = Chosen 2 2 [].
Proof.
  assert (H1 : ["a"; "b"; "c"] <> []) by discriminate.
  assert (H2 : 0 <= 0 < Z.of_nat (length ["a"; "b"; "c"])) by (simpl; lia).
  split; [exact H1|]. split; [exact H2|].
  pose proof (display_menu_in_range ["a"; "b"; "c"] [press "up"; press "enter"] 0
                H1 H2) as H.
  destruct (display_menu ["a"; "b"; "c"] [press "up"; press "enter"] 0) eqn:E;
    vm_compute in E; [|discriminate E|discriminate E].
  exact (eq_sym E).
Defined.

(** X11. The arrows move the selection around a ring: after any run of
    arrow presses the selection is the old one plus the down presses minus
    the up presses, modulo the number of options. Going down once per
    option, or down and then up, comes back to where it started. *)
Theorem arrows_move_modulo (options : list string) (arrows : list bool)
    (rest : list KeyboardEvent) (current_selection : Z) :
  options <> [] ->
  0 <= current_selection < Z.of_nat (length options) ->
  display_menu options (map arrow arrows ++ rest)%list current_selection =
  display_menu options rest
    ((current_selection + net_moves arrows) mod Z.of_nat (length options)).
Proof.
  intros Hne. revert current_selection.
  assert (Hpos : 0 < Z.of_nat (length options))
    by (destruct options; [contradiction|simpl; lia]).
  induction arrows as [|down arrows IH]; intros sel Hsel.
  - cbn [map net_moves List.app]. now rewrite Z.add_0_r, Z.mod_small.
  - cbn [map net_moves List.app]. unfold arrow at 1, press. cbn [display_menu].
    cbn [event_type name]. rewrite String.eqb_refl.
    destruct down; cbn [String.eqb Ascii.eqb Bool.eqb andb];
      (destruct options as [|o options']; [contradiction|]);
      rewrite IH by (now apply Z.mod_pos_bound);
      f_equal; rewrite Zplus_mod_idemp_l; f_equal; lia.
Qed.

Lemma arrows_move_modulo_witness :
  ["a"; "b"; "c"] <> [] /\
  0 <= 1 < Z.of_nat (length ["a"; "b"; "c"]) /\
  display_menu ["a"; "b"; "c"] (map arrow [true; true; true] ++ [press "enter"])%list 1
    = Chosen 1 1 [].
Proof.
  assert (H1 : ["a"; "b"; "c"] <> []) by discriminate.
  assert (H2 : 0 <= 1 < Z.of_nat (length ["a"; "b"; "c"])) by (simpl; lia).
  split; [exact H1|]. split; [exact H2|].
  rewrite (arrows_move_modulo ["a"; "b"; "c"] [true; true; true] [press "enter"] 1
             H1 H2).
  reflexivity.
Defined.

(** X12. [display_menu] reacts only to presses of the arrows, of enter
    and of escape: key releases and all other keys can be removed from
    the events without changing how the call ends (the events left unread
    being filtered the same way); and on a menu that has options a press
    of enter or escape among the events makes it return. *)
Theorem display_menu_ignores_other_events (options : list string)
    (events : list KeyboardEvent) (current_selection : Z) :
  display_menu options (List.filter acts events) current_selection =
    keep_acting (display_menu options events current_selection) /\
  (options <> [] ->
   (exists key, In key events /\ acts key = true /\
                (name key = "enter" \/ name key = "esc")) ->
   exists choice selection rest,
     display_menu options events current_selection = Chosen choice selection rest).
Proof.
  split.
  - revert current_selection. induction events as [|key rest IH]; intros sel.
    + reflexivity.
    + cbn [List.filter]. unfold acts at 1. cbn [display_menu].
      destruct (event_type key =? KEY_DOWN)%string eqn:Et; cbn [andb]; [|apply IH].
      destruct (name key =? "up")%string eqn:Eu; cbn [orb].
      { cbn [display_menu]. rewrite Et, Eu. destruct options; [reflexivity|apply IH]. }
      destruct (name key =? "down")%string eqn:Ed; cbn [orb].
      { cbn [display_menu]. rewrite Et, Eu, Ed.
        destruct options; [reflexivity|apply IH]. }
      destruct (name key =? "enter")%string eqn:Ee; cbn [orb].
      { cbn [display_menu]. now rewrite Et, Eu, Ed, Ee. }
      destruct (name key =? "esc")%string eqn:Es.
      { cbn [display_menu]. now rewrite Et, Eu, Ed, Ee, Es. }
      apply IH.
  - intros Hne. revert current_selection.
    induction events as [|key rest IH]; intros sel (k & Hin & Ha & Hk);
      [destruct Hin|].
    cbn [display_menu].
    destruct (event_type key =? KEY_DOWN)%string eqn:Et.
    2:{ destruct Hin as [<-|Hin].
        - unfold acts in Ha. rewrite Et in Ha. discriminate.
        - apply IH. now exists k. }
    destruct (name key =? "up")%string eqn:Eu.
    { destruct options; [contradiction|]. destruct Hin as [<-|Hin].
      - apply String.eqb_eq in Eu. destruct Hk as [Hk|Hk]; rewrite Hk in Eu;
          discriminate.
      - apply IH. now exists k. }
    destruct (name key =? "down")%string eqn:Ed.
    { destruct options; [contradiction|]. destruct Hin as [<-|Hin].
      - apply String.eqb_eq in Ed. destruct Hk as [Hk|Hk]; rewrite Hk in Ed;
          discriminate.
      - apply IH. now exists k. }
    destruct (name key =? "enter")%string eqn:Ee; [eauto|].
    destruct (name key =? "esc")%string eqn:Es; [eauto|].
    destruct Hin as [<-|Hin].
    + destruct Hk as [Hk|Hk]; rewrite Hk in *; discriminate.
    + apply IH. now exists k.
Qed.

End Menu.

Section Browse.

Import Keyboard Interactive.

Local Open Scope Z_scope.

Example browse_ex :
  browse_applications (snd (run_scan init scenario_env)) plain_emojis 5
    "2024-01-01 00:00:00"
    [press "down"; press "enter"; release "enter"; press "esc"] =
  Left [mkAppInfo "Code" "/Applications/Code.app" false None (Some true)
          (Some "visual-studio-code") None]
       [].
Proof. vm_compute. reflexivity. Qed.

(** The loop of the browser, with fuel to spare: it ends by leaving or by
    waiting for a key, and every record it shows is one of [apps]. *)
Lemma browse_loop_inv (fuel : nat) (apps : list AppInfo) (app_options : list string)
    (events : list KeyboardEvent) (sel : Z) (shown : list AppInfo) :
  length app_options = S (length apps) ->
  0 <= sel < Z.of_nat (length app_options) ->
  (length events < fuel)%nat ->
  exists extra,
    (forall x, In x extra -> In x apps) /\
    ((exists rest, browse_loop fuel apps app_options events sel shown =
                   Left (shown ++ extra)%list rest) \/
     browse_loop fuel apps app_options events sel shown =
       Awaiting (shown ++ extra)%list).
Proof.
  intros Hlen. revert events sel shown.
  assert (Hne : app_options <> []) by (destruct app_options; [discriminate|congruence]).
  induction fuel as [|fuel IH]; intros events sel shown Hsel Hfuel; [lia|].
  cbn [browse_loop].
  pose proof (display_menu_inv app_options events sel Hne Hsel) as Hinv.
  destruct (display_menu app_options events sel) as [c s rest|s|exc];
    [|exists []; rewrite app_nil_r; split; [intros x []|now right]|destruct Hinv].
  destruct Hinv as (Hc & Hs & Hrest).
  destruct ((c =? -1) || (c =? Z.of_nat (length app_options) - 1))%bool.
  { exists []. rewrite app_nil_r. split; [intros x []|]. left. now exists rest. }
  destruct ((0 <=? c) && (c <? Z.of_nat (length apps)))%bool eqn:Er.
  - apply andb_true_iff in Er as (Hlo & Hhi).
    apply Z.leb_le in Hlo. apply Z.ltb_lt in Hhi.
    destruct (apps !! Z.to_nat c) as [app|] eqn:El.
    2:{ apply lookup_ge_None in El. lia. }
    assert (Happ : In app apps)
      by (apply list_elem_of_In, list_elem_of_lookup; eauto).
    destruct rest as [|k rest'].
    + exists [app]. split; [intros x [<-|[]]; exact Happ|now right].
    + destruct (IH rest' s (shown ++ [app])%list Hs) as (extra & Hex & Hres);
        [simpl in Hrest; lia|].
      exists (app :: extra). split; [intros x [<-|Hx]; auto|].
      replace (shown ++ app :: extra)%list with ((shown ++ [app]) ++ extra)%list
        by now rewrite <- app_assoc.
      exact Hres.
  - apply (IH rest s shown Hs). lia.
Qed.

(** How a call of the browser with one of the five filters can end. *)
Lemma browse_applications_cases (self : Scanner) (emojis : Emojis)
    (filter_type : Z) (timestamp : string) (events : list KeyboardEvent) :
  2 <= filter_type <= 6 ->
  match browse_applications self emojis filter_type timestamp events with
  | Raised _ | OutOfFuel => False
  | NoScanData => installed_apps self = []
  | Exported data =>
      filter_type = 6 /\ installed_apps self <> [] /\
      data = Some (export_data self timestamp)
  | NoApplications | Left _ _ | Awaiting _ =>
      filter_type <> 6 /\ installed_apps self <> []
  end.
Proof.
  intros Hft. unfold browse_applications.
  destruct (installed_apps self) as [|a0 l0] eqn:Ei; [reflexivity|].
  assert (Hne : a0 :: l0 <> []) by discriminate.
  destruct (filtered self filter_type) as [apps|] eqn:Ef.
  - assert (H6 : filter_type <> 6).
    { intros ->. unfold filtered in Ef. simpl in Ef. discriminate. }
    destruct apps as [|a apps']; [now split|].
    set (apps := a :: apps').
    set (opts := (map (app_option emojis) apps ++
                  [(back emojis ++ " Back to Main Menu")%string])%list).
    destruct (browse_loop_inv (S (length events)) apps opts events 0 [])
      as (extra & _ & [(rest & ->) | ->]); try (now split); try lia;
      unfold opts; rewrite length_app, length_map; simpl; lia.
  - unfold filtered in Ef.
    destruct (filter_type =? 2) eqn:E2; [discriminate|].
    destruct (filter_type =? 3) eqn:E3; [discriminate|].
    destruct (filter_type =? 4) eqn:E4; [discriminate|].
    destruct (filter_type =? 5) eqn:E5; [discriminate|].
    destruct (filter_type =? 6) eqn:E6.
    + apply Z.eqb_eq in E6. unfold export_to_json. rewrite Ei. now repeat split.
    + apply Z.eqb_neq in E2, E3, E4, E5, E6. lia.
Qed.

(** X13. Called with one of the five filters of the main menu,
    [browse_applications] never raises and its loop ends, by leaving or by
    waiting for the next key, whatever keys are pressed. It reports
    missing scan data exactly when no record is installed, and when it
    exports it always has data: the guard inside [export_to_json] cannot
    fire from here. *)
Theorem browse_applications_ends_well (self : Scanner) (emojis : Emojis)
    (filter_type : Z) (timestamp : string) (events : list KeyboardEvent) :
  2 <= filter_type <= 6 ->
  match browse_applications self emojis filter_type timestamp events with
  | Raised _ | OutOfFuel => False
  | NoScanData => installed_apps self = []
  | Exported data =>
      filter_type = 6 /\ installed_apps self <> [] /\
      data = Some (export_data self timestamp)
  | NoApplications | Left _ _ | Awaiting _ =>
      filter_type <> 6 /\ installed_apps self <> []
  end.
Proof. apply browse_applications_cases. Qed.

Lemma browse_applications_ends_well_witness :
  2 <= 6 <= 6 /\
  browse_applications (snd (run_scan init scenario_env)) plain_emojis 6
    "2024-01-01 00:00:00" [] =
  Exported (Some (export_data (snd (run_scan init scenario_env))
                    "2024-01-01 00:00:00")).
Proof.
  assert (H : 2 <= 6 <= 6) by lia. split; [exact H|].
  pose proof (browse_applications_ends_well (snd (run_scan init scenario_env))
                plain_emojis 6 "2024-01-01 00:00:00" [] H) as W.
  destruct (browse_applications (snd (run_scan init scenario_env)) plain_emojis 6
              "2024-01-01 00:00:00" []) eqn:E; vm_compute in E; try discriminate E.
  destruct W as (_ & _ & ->). reflexivity.
Defined.

(** X14. Every record the browser hands to [display_app_details] is a
    record of the scan that passes the filter in force: owned under
    filter 3, not owned under filter 4, not owned and with
    [has_brew_equivalent = True] under filter 5. *)
Theorem browse_shows_filtered_records (self : Scanner) (emojis : Emojis)
    (filter_type : Z) (timestamp : string) (events : list KeyboardEvent)
    (shown : list AppInfo) (app : AppInfo) :
  (exists rest, browse_applications self emojis filter_type timestamp events =
                Left shown rest) \/
  browse_applications self emojis filter_type timestamp events = Awaiting shown ->
  In app shown ->
  In app (installed_apps self) /\
  (filter_type = 3 -> is_brew app = true) /\
  (filter_type = 4 -> is_brew app = false) /\
  (filter_type = 5 -> is_brew app = false /\ has_brew_equivalent app = Some true).
Proof.
  unfold browse_applications. intros Hres Hin.
  destruct (installed_apps self) as [|a0 l0] eqn:Ei;
    [destruct Hres as [(rest & H)|H]; discriminate|].
  rewrite <- Ei in *.
  destruct (filtered self filter_type) as [apps|] eqn:Ef.
  2:{ destruct (filter_type =? 6); destruct Hres as [(rest & H)|H]; discriminate. }
  assert (Happ : In app apps).
  { destruct apps as [|a apps']; [destruct Hres as [(rest & H)|H]; discriminate|].
    set (apps := a :: apps') in *.
    set (opts := (map (app_option emojis) apps ++
                  [(back emojis ++ " Back to Main Menu")%string])%list) in *.
    destruct (browse_loop_inv (S (length events)) apps opts events 0 [])
      as (extra & Hex & Hloop).
    - unfold opts. rewrite length_app, length_map. simpl. lia.
    - unfold opts. rewrite length_app, length_map. simpl. lia.
    - lia.
    - apply Hex.
      destruct Hloop as [(rest & E)|E]; rewrite E in Hres;
        destruct Hres as [(rest' & H)|H]; try discriminate;
        injection H as Hs; simpl in Hs; now subst shown. }
  unfold filtered in Ef.
  destruct (filter_type =? 2) eqn:E2.
  { apply Z.eqb_eq in E2. injection Ef as <-.
    split; [exact Happ|]. repeat split; intros; exfalso; lia. }
  destruct (filter_type =? 3) eqn:E3.
  { apply Z.eqb_eq in E3. injection Ef as <-.
    apply list_elem_of_In, list_elem_of_filter in Happ as (Hp & Happ).
    apply list_elem_of_In in Happ. split; [exact Happ|].
    split; [intros _; exact Hp|]. split; intros ?; exfalso; lia. }
  destruct (filter_type =? 4) eqn:E4.
  { apply Z.eqb_eq in E4. injection Ef as <-.
    apply list_elem_of_In, list_elem_of_filter in Happ as (Hp & Happ).
    apply list_elem_of_In in Happ. split; [exact Happ|].
    split; [intros ?; exfalso; lia|]. split; [intros _; exact Hp|].
    intros ?; exfalso; lia. }
  destruct (filter_type =? 5) eqn:E5; [|discriminate].
  apply Z.eqb_eq in E5. injection Ef as <-.
  apply list_elem_of_In, list_elem_of_filter in Happ as (Hp & Happ).
  apply list_elem_of_In in Happ. split; [exact Happ|].
  split; [intros ?; exfalso; lia|]. split; [intros ?; exfalso; lia|].
  intros _. destruct (is_brew app), (has_brew_equivalent app) as [[]|];
    simpl in Hp; try discriminate Hp. now split.
Qed.

Lemma browse_shows_filtered_records_witness :
  (exists rest,
     browse_applications (snd (run_scan init scenario_env)) plain_emojis 5
       "2024-01-01 00:00:00"
       [press "down"; press "enter"; release "enter"; press "esc"] =
     Left [mkAppInfo "Code" "/Applications/Code.app" false None (Some true)
             (Some "visual-studio-code") None] rest) /\
  has_brew_equivalent
    (mkAppInfo "Code" "/Applications/Code.app" false None (Some true)
       (Some "visual-studio-code") None) = Some true.
Proof.
  assert (H : exists rest,
     browse_applications (snd (run_scan init scenario_env)) plain_emojis 5
       "2024-01-01 00:00:00"
       [press "down"; press "enter"; release "enter"; press "esc"] =
     Left [mkAppInfo "Code" "/Applications/Code.app" false None (Some true)
             (Some "visual-studio-code") None] rest)
    by (exists []; vm_compute; reflexivity).
  split; [exact H|].
  apply (browse_shows_filtered_records (snd (run_scan init scenario_env))
           plain_emojis 5 "2024-01-01 00:00:00"
           [press "down"; press "enter"; release "enter"; press "esc"]
           _ _ (or_introl H)).
  - left. reflexivity.
  - reflexivity.
Defined.

End Browse.

(** ** Beyond the claims: the output of [brew list] *)

Section Output.

Import BrewOutput.

Example brew_names_ex :
  brew_names (String newline (" wget" ++ String newline ("curl " ++ String newline
                (String newline ("jq" ++ String newline " "))))) =
  ["wget"; "curl "; ""; "jq"].
Proof. reflexivity. Qed.

Example brew_names_blank_ex : brew_names (String newline "  ") = [].
Proof. reflexivity. Qed.

Lemma split_not_nil (sep : ascii) (s : string) : split sep s <> [].
Proof.
  destruct s as [|c r]; simpl; [discriminate|].
  destruct (Ascii.eqb c sep); [discriminate|].
  destruct (split sep r); discriminate.
Qed.

Lemma concat_cons (sep x : string) (l : list string) :
  l <> [] -> String.concat sep (x :: l) = x ++ sep ++ String.concat sep l.
Proof. destruct l; [contradiction|reflexivity]. Qed.

Lemma concat_split (sep : ascii) (s : string) :
  String.concat (String sep "") (split sep s) = s.
Proof.
  induction s as [|c r IH]; [reflexivity|]. simpl split.
  destruct (Ascii.eqb c sep) eqn:E.
  - apply Ascii.eqb_eq in E. subst c.
    rewrite concat_cons by apply split_not_nil. simpl. now rewrite IH.
  - pose proof (split_not_nil sep r) as Hne.
    destruct (split sep r) as [|h t]; [contradiction|].
    destruct t as [|h' t].
    + simpl in *. now rewrite IH.
    + rewrite concat_cons by discriminate.
      rewrite concat_cons in IH by discriminate. rewrite <- IH. reflexivity.
Qed.

Lemma contains_char_cons (sep c : ascii) (s : string) :
  contains (String sep "") (String c s) =
  Ascii.eqb sep c || contains (String sep "") s.
Proof.
  cbn [contains String.prefix]. f_equal.
  destruct (ascii_dec sep c) as [->|Hne].
  - rewrite Ascii.eqb_refl. now destruct s.
  - apply Ascii.eqb_neq in Hne. now rewrite Hne.
Qed.

Lemma split_no_sep (sep : ascii) (s : string) (e : string) :
  In e (split sep s) -> contains (String sep "") e = false.
Proof.
  revert e. induction s as [|c r IH]; intros e; simpl split.
  - intros [<-|[]]. reflexivity.
  - destruct (Ascii.eqb c sep) eqn:E.
    + intros [<-|He]; [reflexivity|now apply IH].
    + destruct (split sep r) as [|h t]; simpl.
      * intros [<-|[]]. rewrite contains_char_cons, Ascii.eqb_sym, E. reflexivity.
      * intros [<-|He].
        -- rewrite contains_char_cons, Ascii.eqb_sym, E. apply IH. now left.
        -- apply IH. now right.
Qed.

(** X15. The names read from one output of [brew list], joined again
    with line feeds, are the stripped output, and no name contains a line
    feed. *)
Theorem brew_names_round_trip (stdout : string) :
  strip stdout <> "" ->
  String.concat (String newline "") (brew_names stdout) = strip stdout /\
  forall e, In e (brew_names stdout) -> contains (String newline "") e = false.
Proof.
  intros Hne. unfold brew_names. apply String.eqb_neq in Hne. rewrite Hne.
  split; [apply concat_split|]. intros e. apply split_no_sep.
Qed.

Lemma brew_names_round_trip_witness :
  strip (" wget" ++ String newline ("curl" ++ String newline "")) <> "" /\
  brew_names (" wget" ++ String newline ("curl" ++ String newline "")) =
    ["wget"; "curl"] /\
  String.concat (String newline "")
    (brew_names (" wget" ++ String newline ("curl" ++ String newline ""))) =
  "wget" ++ String newline "curl".
Proof.
  assert (H : strip (" wget" ++ String newline ("curl" ++ String newline "")) <> "")
    by (vm_compute; discriminate).
  split; [exact H|]. split; [reflexivity|].
  rewrite (proj1 (brew_names_round_trip _ H)). reflexivity.
Defined.

Lemma lstrip_blank (s : string) : lstrip s = "" <-> blank s = true.
Proof.
  induction s as [|c r IH]; simpl; [tauto|].
  destruct (isspace c); simpl; [exact IH|]. split; discriminate.
Qed.

Lemma lstrip_head (s : string) :
  lstrip s = "" \/ exists c r, lstrip s = String c r /\ isspace c = false.
Proof.
  induction s as [|c r IH]; simpl; [now left|].
  destruct (isspace c) eqn:E; [exact IH|]. right. now exists c, r.
Qed.

Lemma rstrip_head (c : ascii) (r : string) :
  isspace c = false -> exists r', rstrip (String c r) = String c r'.
Proof.
  intros E. simpl. destruct (rstrip r) as [|c' r'].
  - rewrite E. now exists "".
  - now exists (String c' r').
Qed.

(** X16. A blank output of [brew list] gives an empty catalog and not the
    one-element catalog of the empty name: there are no names exactly when
    every character of the output is white space. Otherwise the first
    name is not empty and does not begin with white space. *)
Theorem brew_names_blank (stdout : string) :
  (brew_names stdout = [] <-> blank stdout = true) /\
  (blank stdout = false ->
   exists c first others,
     brew_names stdout = String c first :: others /\ isspace c = false).
Proof.
  assert (Hs : strip stdout = "" <-> blank stdout = true).
  { rewrite <- lstrip_blank. unfold strip.
    destruct (lstrip_head stdout) as [->|(c & r & -> & Hc)]; [tauto|].
    destruct (rstrip_head c r Hc) as (r' & ->). split; discriminate. }
  split.
  - unfold brew_names. destruct (strip stdout =? "") eqn:E.
    + apply String.eqb_eq in E. tauto.
    + apply String.eqb_neq in E. split.
      * intros H. now apply split_not_nil in H.
      * intros H. now apply Hs in H.
  - intros Hb. unfold brew_names, strip in *.
    destruct (lstrip_head stdout) as [E|(c & r & E & Hc)].
    + apply lstrip_blank in E. congruence.
    + rewrite E. destruct (rstrip_head c r Hc) as (r' & ->).
      cbn [String.eqb split].
      assert (Hn : Ascii.eqb c newline = false).
      { destruct (Ascii.eqb c newline) eqn:En; [|reflexivity].
        apply Ascii.eqb_eq in En. subst c. discriminate Hc. }
      rewrite Hn. pose proof (split_not_nil newline r') as Hne.
      destruct (split newline r') as [|h t]; [contradiction|].
      now exists c, h, t.
Qed.

End Output.

(** ** Beyond the claims: the numbered menu of the simple scanner *)

Section NumberedMenu.

Import Simple.

Local Open Scope Z_scope.

Example get_user_choice_ex :
  get_user_choice int_decimal ["scan"; "summary"; "export"]
    ["0"; "four"; " 4"; "  2  "; "q"] =
  Answered 1 ["q"].
Proof. reflexivity. Qed.

Example get_user_choice_quit_ex :
  get_user_choice int_decimal ["scan"; "summary"; "export"] ["9"; " Q "; "1"] =
  Answered (-1) ["1"].
Proof. reflexivity. Qed.

(** X17. Whatever [int] accepts, [get_user_choice] answers with -1 or
    with the index of an option, never with anything else; and it runs
    out of input only if every line typed was neither [q] nor the number
    of an option. *)
Theorem get_user_choice_in_range (int : string -> option Z) (options : list string)
    (lines : list string) :
  match get_user_choice int options lines with
  | Answered choice rest =>
      (choice = -1 \/ 0 <= choice < Z.of_nat (length options)) /\
      (length rest < length lines)%nat
  | EOFError =>
      forall line, In line lines ->
        lower (BrewOutput.strip line) <> "q" /\
        forall n, int (lower (BrewOutput.strip line)) = Some n ->
                  ~ (1 <= n <= Z.of_nat (length options))
  end.
Proof.
  induction lines as [|line rest IH]; [intros line []|].
  cbn [get_user_choice].
  destruct (lower (BrewOutput.strip line) =? "q")%string eqn:Eq.
  { split; [now left|simpl; lia]. }
  apply String.eqb_neq in Eq.
  assert (Hrec : forall reject : (forall n, int (lower (BrewOutput.strip line)) = Some n ->
                                   ~ (1 <= n <= Z.of_nat (length options))),
    match get_user_choice int options rest with
    | Answered choice rest0 =>
        (choice = -1 \/ 0 <= choice < Z.of_nat (length options)) /\
        (length rest0 < length (line :: rest))%nat
    | EOFError =>
        forall line0, In line0 (line :: rest) ->
          lower (BrewOutput.strip line0) <> "q" /\
          forall n, int (lower (BrewOutput.strip line0)) = Some n ->
                    ~ (1 <= n <= Z.of_nat (length options))
    end).
  { intros reject. destruct (get_user_choice int options rest) as [c r|].
    - destruct IH as (Hc & Hl). split; [exact Hc|simpl; lia].
    - intros l [<-|Hl]; [now split|now apply IH]. }
  destruct (int (lower (BrewOutput.strip line))) as [n|] eqn:En.
  - destruct ((1 <=? n) && (n <=? Z.of_nat (length options)))%bool eqn:Er.
    + apply andb_true_iff in Er as (Hlo & Hhi).
      apply Z.leb_le in Hlo. apply Z.leb_le in Hhi.
      split; [right; lia|simpl; lia].
    + apply Hrec. intros m [= <-] (Hlo & Hhi).
      apply Z.leb_le in Hlo. apply Z.leb_le in Hhi.
      rewrite Hlo, Hhi in Er. discriminate.
  - apply Hrec. intros m Hm. discriminate.
Qed.

End NumberedMenu.

(** ** Beyond the claims: the package templates *)

Section Templates.

Import ConfigPy.

Example default_minimal_ex :
  get_all_packages first_occurrences (default_config "/Users/u") "minimal" =
  mkPackageLists ["git"; "curl"; "wget"; "tree"; "htop"; "jq"] ["reminders-menubar"].
Proof. reflexivity. Qed.

Example default_unknown_ex :
  get_all_packages first_occurrences (default_config "/Users/u") "server" =
  mkPackageLists [] [].
Proof. reflexivity. Qed.

Lemma first_occurrences_In (l : list string) (x : string) :
  In x (first_occurrences l) <-> In x l.
Proof.
  induction l as [|y l IH]; simpl; [tauto|].
  rewrite <- IH, <- !list_elem_of_In, list_elem_of_filter.
  destruct (String.eqb_spec x y) as [->|Hne]; [tauto|].
  split; [tauto|]. intros [H|H]; [congruence|]. right. split; [|exact H].
  reflexivity.
Qed.

Lemma first_occurrences_NoDup (l : list string) : List.NoDup (first_occurrences l).
Proof.
  induction l as [|y l IH]; simpl; constructor.
  - rewrite <- list_elem_of_In, list_elem_of_filter. intros (H & _).
    now rewrite String.eqb_refl in H.
  - apply NoDup_ListNoDup, NoDup_filter, NoDup_ListNoDup, IH.
Qed.

Lemma dict_lookup_store {V} (key : string) (value : V) (d : list (string * V))
    (key' : string) :
  dict_lookup key' (dict_store key value d) =
  if key =? key' then Some value else dict_lookup key' d.
Proof.
  induction d as [|(k & v) d IH]; simpl.
  - destruct (key =? key'); reflexivity.
  - destruct (k =? key) eqn:E; simpl.
    + apply String.eqb_eq in E. subst k. now destruct (key =? key').
    + destruct (k =? key') eqn:E'; [|exact IH].
      apply String.eqb_eq in E'. subst k. now rewrite String.eqb_sym, E.
Qed.

Lemma dict_store_keys {V} (key : string) (value : V) (d : list (string * V)) :
  map fst (dict_store key value d) =
  if existsb (String.eqb key) (map fst d) then map fst d
  else (map fst d ++ [key])%list.
Proof.
  induction d as [|(k & v) d IH]; simpl; [reflexivity|].
  destruct (k =? key) eqn:E; simpl.
  - now rewrite String.eqb_sym, E.
  - rewrite String.eqb_sym, E. simpl. rewrite IH.
    now destruct (existsb (String.eqb key) (map fst d)).
Qed.

Variable list_of_set : list string -> list string.
Hypothesis list_of_set_NoDup : forall l, List.NoDup (list_of_set l).
Hypothesis list_of_set_In : forall l x, In x (list_of_set l) <-> In x l.

(** X18. For a template that exists, [get_all_packages] returns two lists
    without repetition. A formula is listed exactly when it is essential,
    or a development formula of a template that includes development, or
    a custom formula of the template; a cask likewise, with the
    productivity casks when the template includes productivity. For a
    name that is not a template both lists are empty. *)
Theorem get_all_packages_contents (self : Config) (template_name : string) :
  match get_template_config self template_name with
  | None => get_all_packages list_of_set self template_name = mkPackageLists [] []
  | Some template =>
      let result := get_all_packages list_of_set self template_name in
      List.NoDup (formulae result) /\ List.NoDup (casks result) /\
      (forall x, In x (formulae result) <->
         In x (essential_formulae (packages self)) \/
         (TemplateConfig.include_development template = true /\
          In x (development_formulae (packages self))) \/
         In x (TemplateConfig.custom_formulae template)) /\
      (forall x, In x (casks result) <->
         In x (essential_casks (packages self)) \/
         (TemplateConfig.include_development template = true /\
          In x (development_casks (packages self))) \/
         (TemplateConfig.include_productivity template = true /\
          In x (productivity_casks (packages self))) \/
         In x (TemplateConfig.custom_casks template))
  end.
Proof.
  unfold get_all_packages.
  destruct (get_template_config self template_name) as [t|]; [|reflexivity].
  cbn [formulae casks]. split; [apply list_of_set_NoDup|].
  split; [apply list_of_set_NoDup|]. split; intros x; rewrite list_of_set_In.
  - destruct (TemplateConfig.include_development t); rewrite !in_app_iff;
      intuition congruence.
  - destruct (TemplateConfig.include_development t),
      (TemplateConfig.include_productivity t); rewrite !in_app_iff;
      intuition congruence.
Qed.

(** X19. A template that includes at least what another includes gets at
    least its packages: if the flags of the first imply those of the
    second and its custom lists are contained in the second's, every
    formula and every cask of the first is one of the second. *)
Theorem get_all_packages_monotone (self : Config) (name1 name2 : string)
    (t1 t2 : TemplateConfig.t) :
  get_template_config self name1 = Some t1 ->
  get_template_config self name2 = Some t2 ->
  (TemplateConfig.include_development t1 = true ->
   TemplateConfig.include_development t2 = true) ->
  (TemplateConfig.include_productivity t1 = true ->
   TemplateConfig.include_productivity t2 = true) ->
  (forall x, In x (TemplateConfig.custom_formulae t1) ->
             In x (TemplateConfig.custom_formulae t2)) ->
  (forall x, In x (TemplateConfig.custom_casks t1) ->
             In x (TemplateConfig.custom_casks t2)) ->
  (forall x, In x (formulae (get_all_packages list_of_set self name1)) ->
             In x (formulae (get_all_packages list_of_set self name2))) /\
  (forall x, In x (casks (get_all_packages list_of_set self name1)) ->
             In x (casks (get_all_packages list_of_set self name2))).
Proof.
  intros H1 H2 Hd Hp Hf Hc. unfold get_all_packages. rewrite H1, H2.
  cbn [formulae casks]. split; intros x; rewrite !list_of_set_In.
  - destruct (TemplateConfig.include_development t1),
      (TemplateConfig.include_development t2); rewrite !in_app_iff;
      try (specialize (Hd eq_refl); discriminate); specialize (Hf x); tauto.
  - destruct (TemplateConfig.include_development t1),
      (TemplateConfig.include_development t2);
      try (specialize (Hd eq_refl); discriminate);
      destruct (TemplateConfig.include_productivity t1),
        (TemplateConfig.include_productivity t2);
      try (specialize (Hp eq_refl); discriminate);
      rewrite !in_app_iff; specialize (Hc x); tauto.
Qed.

(** X20. [add_template] stores the template under its name and disturbs
    nothing else: the name now gives that template, every other name
    gives what it gave before, the order of the names is kept with a new
    name added at the end, and the packages of every other template are
    unchanged. *)
Theorem add_template_effect (self : Config) (name : string) (config : TemplateConfig.t) :
  get_template_config (add_template self name config) name = Some config /\
  (forall other, other <> name ->
     get_template_config (add_template self name config) other =
       get_template_config self other /\
     get_all_packages list_of_set (add_template self name config) other =
       get_all_packages list_of_set self other) /\
  map fst (templates (add_template self name config)) =
    (if existsb (String.eqb name) (map fst (templates self))
     then map fst (templates self)
     else (map fst (templates self) ++ [name])%list).
Proof.
  unfold get_all_packages, get_template_config, add_template. cbn [templates packages].
  split; [|split].
  - now rewrite dict_lookup_store, String.eqb_refl.
  - intros other Hne. rewrite dict_lookup_store.
    assert (E : (name =? other) = false)
      by (apply String.eqb_neq; congruence).
    rewrite E. now split.
  - apply dict_store_keys.
Qed.

End Templates.

Lemma get_all_packages_monotone_witness :
  ConfigPy.get_template_config (ConfigPy.default_config "/Users/u") "development" =
    Some (ConfigPy.default_template "dev-vm" true false) /\
  ConfigPy.get_template_config (ConfigPy.default_config "/Users/u") "full" =
    Some (ConfigPy.default_template "full-vm" true true) /\
  In "postman" (ConfigPy.casks
                  (ConfigPy.get_all_packages ConfigPy.first_occurrences
                     (ConfigPy.default_config "/Users/u") "full")).
Proof.
  split; [reflexivity|]. split; [reflexivity|].
  refine (proj2 (get_all_packages_monotone ConfigPy.first_occurrences
                   first_occurrences_In (ConfigPy.default_config "/Users/u")
                   "development" "full" _ _ eq_refl eq_refl _ _ _ _) "postman" _).
  - intros _. reflexivity.
  - discriminate.
  - intros x [].
  - intros x [].
  - vm_compute. tauto.
Defined.

Lemma get_all_packages_contents_witness :
  List.NoDup (ConfigPy.casks
                (ConfigPy.get_all_packages ConfigPy.first_occurrences
                   (ConfigPy.default_config "/Users/u") "full")) /\
  In "docker" (ConfigPy.formulae
                 (ConfigPy.get_all_packages ConfigPy.first_occurrences
                    (ConfigPy.default_config "/Users/u") "full")).
Proof.
  pose proof (get_all_packages_contents ConfigPy.first_occurrences
                first_occurrences_NoDup first_occurrences_In
                (ConfigPy.default_config "/Users/u") "full") as H.
  cbn [ConfigPy.get_template_config ConfigPy.default_config ConfigPy.templates
       ConfigPy.dict_lookup String.eqb Ascii.eqb Bool.eqb] in H.
  destruct H as (_ & Hc & Hf & _). split; [exact Hc|].
  apply Hf. right. left. split; [reflexivity|]. vm_compute. tauto.
Defined.

Lemma add_template_effect_witness :
  ConfigPy.get_template_config
    (ConfigPy.add_template (ConfigPy.default_config "/Users/u") "server"
       (ConfigPy.default_template "server-vm" false false)) "server" =
  Some (ConfigPy.default_template "server-vm" false false) /\
  map fst (ConfigPy.templates
             (ConfigPy.add_template (ConfigPy.default_config "/Users/u") "server"
                (ConfigPy.default_template "server-vm" false false))) =
  ["minimal"; "development"; "full"; "server"].
Proof.
  destruct (add_template_effect ConfigPy.first_occurrences
              (ConfigPy.default_config "/Users/u") "server"
              (ConfigPy.default_template "server-vm" false false)) as (H1 & _ & H3).
  split; [exact H1|exact H3].
Defined.

(** ** Beyond the claims: the key and the memory of the scanner *)

(** X21. The key of a name holds no space and is in lower case. *)
Theorem app_key_normal_form (n : string) :
  contains " " (app_key n) = false /\
  lower (app_key n) = app_key n.
Proof.
  induction n as [|c r (Hs & Hk)]; [repeat split|].
  rewrite app_key_cons. cbn [lower]. rewrite Hk.
  rewrite contains_char_cons, Hs, orb_false_r.
  destruct (Ascii.eqb c " ") eqn:E; [repeat split|].
  rewrite lower_char_idem, Ascii.eqb_sym, lower_char_space, E. repeat split.
Qed.

(** The two passes read the catalogs of the scanner and nothing else. *)
Lemma passes_read_catalogs_only (s1 s2 : Scanner) (env : Env) :
  brew_casks s1 = brew_casks s2 ->
  brew_formulae s1 = brew_formulae s2 ->
  get_applications_macos s1 env = get_applications_macos s2 env /\
  get_applications_linux s1 env = get_applications_linux s2 env /\
  forall apps, check_brew_equivalents s1 apps = check_brew_equivalents s2 apps.
Proof.
  intros Ec Ef. split; [|split].
  - apply scan_dirs_ext; [reflexivity|]. intros d i. unfold macos_item. now rewrite Ec.
  - apply scan_dirs_ext; [reflexivity|]. intros d i. unfold linux_item. now rewrite Ef.
  - intros apps. rewrite !check_brew_equivalents_map. apply map_ext.
    intros a. unfold check_app. now rewrite Ec, Ef.
Qed.

(** X22. A successful scan owes nothing to what the scanner held before:
    started from any two scanners on the same machine it ends in the same
    catalogs and the same records. *)
Theorem scan_forgets_previous_state (self1 self2 : Scanner) (env : Env) :
  fst (run_scan self1 env) = true ->
  run_scan self1 env = run_scan self2 env.
Proof.
  unfold run_scan, get_brew_packages.
  destruct (brew_list_formula env) as [formulae|]; [|discriminate].
  set (casks := match brew_list_cask env with Some casks => casks | None => [] end).
  destruct (passes_read_catalogs_only
              (mkScanner formulae casks (installed_apps self1))
              (mkScanner formulae casks (installed_apps self2)) env eq_refl eq_refl)
    as (Em & El & Ec).
  destruct (sys_platform env =? "darwin").
  - intros _. cbn [brew_formulae brew_casks]. now rewrite Em, Ec.
  - destruct (startswith (sys_platform env) "linux"); [|discriminate].
    intros _. cbn [brew_formulae brew_casks]. now rewrite El, Ec.
Qed.

Lemma scan_forgets_previous_state_witness :
  fst (run_scan (snd (run_scan init linux_env)) scenario_env) = true /\
  run_scan (snd (run_scan init linux_env)) scenario_env = run_scan init scenario_env.
Proof.
  assert (H : fst (run_scan (snd (run_scan init linux_env)) scenario_env) = true)
    by (vm_compute; reflexivity).
  split; [exact H|].
  exact (scan_forgets_previous_state _ init scenario_env H).
Defined.

(** ** Beyond the claims: where an empty name comes from *)

Section EmptyNames.

Import BrewOutput.

Lemma endswith_char_cons (c sep : ascii) (r : string) :
  endswith (String c r) (String sep "") =
  match r with
  | EmptyString => Ascii.eqb c sep
  | _ => endswith r (String sep "")
  end.
Proof.
  unfold endswith. destruct r as [|c' r'].
  - cbn. now destruct (Ascii.eqb c sep).
  - cbn [String.length]. cbn [Nat.leb Nat.sub andb String.substring].
    now rewrite Nat.sub_0_r.
Qed.

Lemma contains_pair_cons (sep c : ascii) (r : string) :
  contains (String sep (String sep "")) (String c r) =
  (Ascii.eqb c sep &&
   match r with String b _ => Ascii.eqb b sep | EmptyString => false end) ||
  contains (String sep (String sep "")) r.
Proof.
  cbn [contains String.prefix]. f_equal.
  destruct (ascii_dec sep c) as [<-|Hne].
  - rewrite Ascii.eqb_refl. cbn [andb]. destruct r as [|b r']; [reflexivity|].
    cbn [String.prefix]. destruct (ascii_dec sep b) as [<-|Hne].
    + rewrite Ascii.eqb_refl. now destruct r'.
    + apply Ascii.eqb_neq in Hne. now rewrite Ascii.eqb_sym, Hne.
  - apply Ascii.eqb_neq in Hne. now rewrite Ascii.eqb_sym, Hne.
Qed.

Lemma split_head_empty (sep : ascii) (s : string) :
  (hd "" (split sep s) =? "") =
  match s with String b _ => Ascii.eqb b sep | EmptyString => true end.
Proof.
  destruct s as [|c r]; [reflexivity|]. simpl split.
  destruct (Ascii.eqb c sep); [reflexivity|].
  now destruct (split sep r).
Qed.

(** An empty part after the first comes from a separator at the very end
    or from two separators in a row. *)
Lemma split_tail_empty (sep : ascii) (s : string) :
  existsb (String.eqb "") (tl (split sep s)) =
  endswith s (String sep "") || contains (String sep (String sep "")) s.
Proof.
  induction s as [|c r IH]; [reflexivity|].
  rewrite endswith_char_cons, contains_pair_cons. simpl split.
  destruct (Ascii.eqb c sep) eqn:E.
  - cbn [tl andb]. pose proof (split_not_nil sep r) as Hne.
    pose proof (split_head_empty sep r) as Hh.
    destruct (split sep r) as [|h t]; [contradiction|].
    cbn [existsb hd tl] in *. rewrite IH, String.eqb_sym, Hh.
    destruct r as [|b r']; [reflexivity|].
    destruct (Ascii.eqb b sep), (endswith (String b r') (String sep "")),
      (contains (String sep (String sep "")) (String b r')); reflexivity.
  - cbn [andb orb]. pose proof (split_not_nil sep r) as Hne.
    destruct (split sep r) as [|h t]; [contradiction|].
    cbn [tl] in *. rewrite IH. destruct r as [|b r']; reflexivity.
Qed.

Lemma rstrip_no_trailing_newline (s : string) :
  endswith (rstrip s) (String newline "") = false.
Proof.
  induction s as [|c r IH]; [reflexivity|]. simpl rstrip.
  destruct (rstrip r) as [|c' r'].
  - destruct (isspace c) eqn:E; [reflexivity|].
    rewrite endswith_char_cons.
    destruct (Ascii.eqb c newline) eqn:En; [|reflexivity].
    apply Ascii.eqb_eq in En. subst c. discriminate E.
  - now rewrite endswith_char_cons.
Qed.

(** X23. Among the names read from a non-blank output of [brew list]
    there is an empty one exactly when the stripped output holds two line
    feeds in a row, that is, a blank line between two names. *)
Theorem empty_name_from_blank_line (stdout : string) :
  strip stdout <> "" ->
  (In "" (brew_names stdout) <->
   contains (String newline (String newline "")) (strip stdout) = true).
Proof.
  intros Hne. unfold brew_names. pose proof Hne as Hb.
  apply String.eqb_neq in Hb. rewrite Hb.
  pose proof (split_tail_empty newline (strip stdout)) as Ht.
  pose proof (split_head_empty newline (strip stdout)) as Hh.
  pose proof (split_not_nil newline (strip stdout)) as Hn.
  assert (Hfirst : match strip stdout with
                   | String b _ => Ascii.eqb b newline
                   | EmptyString => true
                   end = false).
  { unfold strip in *. destruct (lstrip_head stdout) as [E|(c & r & E & Hc)].
    - rewrite E in Hne. now contradiction Hne.
    - rewrite E. destruct (rstrip_head c r Hc) as (r' & ->).
      destruct (Ascii.eqb c newline) eqn:En; [|reflexivity].
      apply Ascii.eqb_eq in En. subst c. discriminate Hc. }
  rewrite Hfirst in Hh.
  unfold strip in Ht at 2. rewrite rstrip_no_trailing_newline in Ht.
  cbn [orb] in Ht. rewrite <- Ht.
  destruct (split newline (strip stdout)) as [|h t]; [contradiction|].
  cbn [hd tl] in *. rewrite existsb_exists. apply String.eqb_neq in Hh. split.
  - intros [E|Hin]; [congruence|]. exists "". now split.
  - intros (x & Hin & Hx). apply String.eqb_eq in Hx. subst x. now right.
Qed.

Lemma empty_name_from_blank_line_witness :
  strip ("wget" ++ String newline (String newline "curl")) <> "" /\
  In "" (brew_names ("wget" ++ String newline (String newline "curl"))).
Proof.
  assert (H : strip ("wget" ++ String newline (String newline "curl")) <> "")
    by (vm_compute; discriminate).
  split; [exact H|].
  apply (empty_name_from_blank_line _ H). vm_compute. reflexivity.
Defined.

End EmptyNames.

(** ** Beyond the claims: the main menu *)

Section MainMenu.

Import Keyboard Interactive.

Local Open Scope Z_scope.

Example main_menu_ex :
  main_menu (fun _ => scenario_env) (fun _ => "2024-01-01 00:00:00") plain_emojis init
    [press "down"; press "enter"; press "enter"; press "down"; press "enter";
     release "enter"; press "esc"] =
  Exited [WarnedNoData; RanScan true; ShowedSummary (mkSummary 3 0 3 2)]
    (snd (run_scan init scenario_env)) [].
Proof. vm_compute. reflexivity. Qed.

Lemma display_menu_rest (options : list string) (events : list KeyboardEvent)
    (sel choice sel' : Z) (rest : list KeyboardEvent) :
  display_menu options events sel = Chosen choice sel' rest ->
  (length rest < length events)%nat.
Proof.
  revert sel. induction events as [|key events IH]; intros sel; [discriminate|].
  cbn [display_menu length].
  assert (Hstep : forall s, display_menu options events s = Chosen choice sel' rest ->
                            (length rest < S (length events))%nat)
    by (intros s H; apply IH in H; lia).
  destruct (event_type key =? KEY_DOWN)%string; [|apply Hstep].
  destruct (name key =? "up")%string.
  { destruct options; [discriminate|apply Hstep]. }
  destruct (name key =? "down")%string.
  { destruct options; [discriminate|apply Hstep]. }
  destruct (name key =? "enter")%string; [intros [= _ _ <-]; lia|].
  destruct (name key =? "esc")%string; [intros [= _ _ <-]; lia|].
  apply Hstep.
Qed.

Lemma browse_loop_rest (fuel : nat) (apps : list AppInfo) (app_options : list string)
    (events : list KeyboardEvent) (sel : Z) (shown sh : list AppInfo)
    (rest : list KeyboardEvent) :
  browse_loop fuel apps app_options events sel shown = Left sh rest ->
  (length rest < length events)%nat.
Proof.
  revert events sel shown. induction fuel as [|fuel IH]; intros events sel shown;
    [discriminate|].
  cbn [browse_loop].
  destruct (display_menu app_options events sel) as [c s rest0|s|exc] eqn:Em;
    [|discriminate|discriminate].
  apply display_menu_rest in Em.
  destruct ((c =? -1) || (c =? Z.of_nat (length app_options) - 1))%bool.
  { intros [= _ <-]. exact Em. }
  destruct ((0 <=? c) && (c <? Z.of_nat (length apps)))%bool.
  - destruct (apps !! Z.to_nat c); [|discriminate].
    destruct rest0 as [|k rest']; [discriminate|].
    intros H. apply IH in H. simpl in Em. lia.
  - intros H. apply IH in H. lia.
Qed.

Lemma browse_applications_rest (self : Scanner) (emojis : Emojis) (filter_type : Z)
    (timestamp : string) (events : list KeyboardEvent) (sh : list AppInfo)
    (rest : list KeyboardEvent) :
  browse_applications self emojis filter_type timestamp events = Left sh rest ->
  (length rest < length events)%nat.
Proof.
  unfold browse_applications. destruct (installed_apps self) as [|a0 l0];
    [discriminate|].
  destruct (filtered self filter_type) as [[|a1 apps]|].
  - discriminate.
  - apply browse_loop_rest.
  - destruct (filter_type =? 6); discriminate.
Qed.

Lemma snoc_case {A} (l : list A) : l = [] \/ exists l' z, l = (l' ++ [z])%list.
Proof.
  induction l as [|z l' _] using rev_ind; [now left|]. right. now exists l', z.
Qed.

Lemma quiet_snoc (trace : list Action) (last : Action) :
  quiet_before_scan trace ->
  (~ In (RanScan true) trace -> shows_nothing last) ->
  quiet_before_scan (trace ++ [last])%list.
Proof.
  intros Hq Ha before b after E Hb.
  destruct (snoc_case after) as [->|(after' & z & ->)].
  - apply app_inj_tail in E as (<- & <-). now apply Ha.
  - rewrite app_comm_cons, app_assoc in E.
    apply app_inj_tail in E as (E & _). now apply (Hq before b after').
Qed.

Lemma quiet_nil : quiet_before_scan [].
Proof. intros [|x before] a after E; discriminate. Qed.

(** The loop of the main menu, with fuel to spare. The facts about the
    first scan are kept only [When] they held at the start. *)
Lemma main_loop_inv (When : Prop) (fuel : nat) (machine : nat -> Env)
    (clock : nat -> string) (emojis : Emojis) (self : Scanner)
    (events : list KeyboardEvent) (trace : list Action) :
  (length events < fuel)%nat ->
  Forall action_ok trace ->
  (When -> quiet_before_scan trace) ->
  (When -> installed_apps self <> [] -> In (RanScan true) trace) ->
  match main_loop fuel machine clock emojis self events trace with
  | Exited trace' _ _ | MainAwaiting trace' _ =>
      Forall action_ok trace' /\ (When -> quiet_before_scan trace')
  | MainRaised _ | MainOutOfFuel => False
  end.
Proof.
  revert self events trace.
  induction fuel as [|fuel IH]; intros self events trace Hfuel Hok Hq Hscan; [lia|].
  cbn [main_loop].
  assert (Hopts : main_options emojis <> []) by discriminate.
  assert (Hsel : 0 <= 0 < Z.of_nat (length (main_options emojis))) by (simpl; lia).
  pose proof (display_menu_inv (main_options emojis) events 0 Hopts Hsel) as Hinv.
  destruct (display_menu (main_options emojis) events 0) as [c s rest|s|exc];
    [|now split|destruct Hinv].
  destruct Hinv as (_ & _ & Hrest).
  assert (Hsnoc : forall a, action_ok a -> Forall action_ok (trace ++ [a])%list).
  { intros a Ha. apply Forall_app. split; [exact Hok|]. now constructor. }
  assert (Hin : forall a, When -> installed_apps self <> [] ->
                          In (RanScan true) (trace ++ [a])%list).
  { intros a W Hne. apply in_or_app. left. now apply Hscan. }
  assert (Hseen : forall a, When -> installed_apps self <> [] ->
                            quiet_before_scan (trace ++ [a])%list).
  { intros a W Hne. apply quiet_snoc; [now apply Hq|].
    intros H. exfalso. now apply H, Hscan. }
  destruct ((c =? -1) || (c =? 7))%bool; [now split|].
  destruct (c =? 0).
  { destruct (run_scan self (machine (length trace))) as (ok & self') eqn:Er.
    apply IH; [lia|now apply Hsnoc| |].
    - intros W. apply quiet_snoc; [now apply Hq|]. now intros _.
    - intros W Hne. destruct ok.
      + apply in_or_app. right. now left.
      + pose proof (run_scan_failure_keeps_apps self (machine (length trace))) as Hk.
        rewrite Er in Hk. simpl in Hk. rewrite Hk in Hne by reflexivity.
        now apply Hin. }
  destruct (c =? 1).
  { destruct (installed_apps self) as [|a0 l0] eqn:Ei.
    - apply IH; [lia|now apply Hsnoc| |].
      + intros W. apply quiet_snoc; [now apply Hq|]. now intros _.
      + rewrite Ei. intros _ H. now contradiction H.
    - assert (Hne : a0 :: l0 <> []) by discriminate.
      destruct rest as [|k rest'].
      + split; [now apply Hsnoc|]. intros W. now apply Hseen.
      + apply IH; [simpl in Hrest; lia|now apply Hsnoc| |].
        * intros W. now apply Hseen.
        * rewrite Ei. intros W _. now apply Hin. }
  destruct ((2 <=? c) && (c <=? 6))%bool eqn:Ec.
  2:{ apply IH; [lia|exact Hok|exact Hq|exact Hscan]. }
  apply andb_true_iff in Ec as (Hlo & Hhi).
  apply Z.leb_le in Hlo. apply Z.leb_le in Hhi.
  pose proof (browse_applications_cases self emojis c (clock (length trace)) rest
                (conj Hlo Hhi)) as Hb.
  destruct (browse_applications self emojis c (clock (length trace)) rest)
    as [| |data|shown rest'|shown|exc|] eqn:Eb.
  - apply IH; [lia| | |exact (Hin _)].
    + apply Hsnoc. now split.
    + intros W. apply quiet_snoc; [now apply Hq|]. now intros _.
  - destruct Hb as (_ & Hne).
    apply IH; [lia| | |exact (Hin _)].
    + apply Hsnoc. now split.
    + intros W. now apply Hseen.
  - destruct Hb as (_ & Hne & ->).
    apply IH; [lia| | |exact (Hin _)].
    + apply Hsnoc. split; [lia|]. now eexists.
    + intros W. now apply Hseen.
  - destruct Hb as (_ & Hne). apply browse_applications_rest in Eb.
    apply IH; [lia| | |exact (Hin _)].
    + apply Hsnoc. now split.
    + intros W. now apply Hseen.
  - destruct Hb as (_ & Hne). split.
    + apply Hsnoc. now split.
    + intros W. now apply Hseen.
  - destruct Hb.
  - destruct Hb.
Qed.

Example main_menu_without_brew_ex :
  main_menu_raising (fun _ => inr "FileNotFoundError")
    (fun _ => "2024-01-01 00:00:00") plain_emojis init
    [press "down"; press "enter"; press "enter"; press "esc"] =
  MainRaised "FileNotFoundError".
Proof. vm_compute. reflexivity. Qed.

(** As long as no scan raises, the two loops are one. *)
Lemma main_loop_raising_agrees (fuel : nat) (machine : nat -> Env)
    (clock : nat -> string) (emojis : Emojis) (self : Scanner)
    (events : list KeyboardEvent) (trace : list Action) :
  main_loop_raising fuel (fun n => inl (machine n)) clock emojis self events trace =
  main_loop fuel machine clock emojis self events trace.
Proof.
  revert self events trace. induction fuel as [|fuel IH]; intros self events trace;
    [reflexivity|].
  cbn [main_loop_raising main_loop].
  destruct (display_menu (main_options emojis) events 0) as [c s rest|s|exc];
    try reflexivity.
  destruct ((c =? -1) || (c =? 7))%bool; [reflexivity|].
  destruct (c =? 0).
  { destruct (run_scan self (machine (length trace))) as (ok & self'). apply IH. }
  destruct (c =? 1).
  { destruct (installed_apps self); [apply IH|].
    destruct rest; [reflexivity|apply IH]. }
  destruct ((2 <=? c) && (c <=? 6))%bool; [|apply IH].
  destruct (browse_applications self emojis c (clock (length trace)) rest);
    try reflexivity; apply IH.
Qed.



(** X25. In a session that starts without scan data, nothing of a scan
    is shown before a scan has succeeded: until then every action of the
    main menu is a scan or a warning that there is no scan data; no
    summary, no list of applications, no details and no export. *)
Theorem nothing_shown_before_first_scan (machine : nat -> Env) (clock : nat -> string)
    (emojis : Emojis) (self : Scanner) (events : list KeyboardEvent) :
  installed_apps self = [] ->
  match main_menu machine clock emojis self events with
  | Exited trace _ _ | MainAwaiting trace _ => quiet_before_scan trace
  | MainRaised _ | MainOutOfFuel => False
  end.
Proof.
  intros Ei. unfold main_menu.
  pose proof (main_loop_inv True (S (length events)) machine clock emojis self
                events [] (Nat.lt_succ_diag_r _) (List.Forall_nil _)
                (fun _ => quiet_nil)) as H.
  rewrite Ei in H. specialize (H (fun _ E => False_ind _ (E eq_refl))).
  destruct (main_loop (S (length events)) machine clock emojis self events []);
    [now apply H|now apply H|exact H|exact H].
Qed.

Lemma nothing_shown_before_first_scan_witness :
  installed_apps init = [] /\
  main_menu (fun _ => scenario_env) (fun _ => "2024-01-01 00:00:00") plain_emojis init
    [press "down"; press "enter"; press "enter"; press "down"; press "enter";
     release "enter"; press "esc"] =
  Exited [WarnedNoData; RanScan true; ShowedSummary (mkSummary 3 0 3 2)]
    (snd (run_scan init scenario_env)) [] /\
  quiet_before_scan [WarnedNoData; RanScan true; ShowedSummary (mkSummary 3 0 3 2)].
Proof.
  assert (H0 : installed_apps init = []) by reflexivity.
  split; [exact H0|].
  pose proof (nothing_shown_before_first_scan (fun _ => scenario_env)
                (fun _ => "2024-01-01 00:00:00") plain_emojis init
                [press "down"; press "enter"; press "enter"; press "down";
                 press "enter"; release "enter"; press "esc"] H0) as W.
  destruct (main_menu (fun _ => scenario_env) (fun _ => "2024-01-01 00:00:00")
              plain_emojis init
              [press "down"; press "enter"; press "enter"; press "down";
               press "enter"; release "enter"; press "esc"]) eqn:E;
    vm_compute in E; try discriminate E.
  injection E as <- <- <-. split; [reflexivity|exact W].
Defined.

End MainMenu.
